(** * VueHorizontalScrollbar: scroll-state synchronisation and interaction

    A shallow embedding of the script of
    [src/components/VueHorizontalScrollbar.vue]: the reactive refs of the
    component become the fields of a record [Comp], every handler becomes a
    function [Comp -> Comp] (explicit state passing), and what a handler lets
    the outside observe ([emit], [preventDefault], console output) is appended
    to a log carried by the state.

    The computed [thumbStyle] is modelled with its cache: the getter is
    the function [thumbStyle], the value a read returns is the field
    [thumbStyleValue], refreshed when a dependency (a ref or a prop the
    getter reads) changes and not when only a DOM width does.

    Numbers.  A JavaScript number is modelled by [num]: an exact rational, or
    one of [+Infinity], [-Infinity], [NaN].  Finite arithmetic is exact (no
    rounding, no overflow); the non-finite cases follow IEEE 754 as
    ECMAScript prescribes them.  The model has one zero, which stands for
    [+0]: a zero divisor in this component only arises as the difference of
    two equal finite numbers, and that difference is [+0]. *)

From Stdlib Require Import QArith Lqa List String Bool PeanoNat.
Import ListNotations.

Local Open Scope string_scope.
Local Open Scope Q_scope.

(** ** JavaScript numbers *)

Module JS.

Inductive num : Type :=
| Fin (q : Q)
| PInf
| NInf
| NaN.

(** Equality of numbers up to the representation of the rational. *)
Definition num_eq (a b : num) : Prop :=
  match a, b with
  | Fin x, Fin y => x == y
  | PInf, PInf => True
  | NInf, NInf => True
  | NaN, NaN => True
  | _, _ => False
  end.

Definition opp (a : num) : num :=
  match a with
  | Fin x => Fin (- x)
  | PInf => NInf
  | NInf => PInf
  | NaN => NaN
  end.

(** [a + b] *)
Definition add (a b : num) : num :=
  match a, b with
  | NaN, _ | _, NaN => NaN
  | Fin x, Fin y => Fin (x + y)
  | PInf, NInf | NInf, PInf => NaN
  | PInf, _ | _, PInf => PInf
  | NInf, _ | _, NInf => NInf
  end.

(** [a - b] *)
Definition sub (a b : num) : num := add a (opp b).

(** The infinity with the sign of the rational [x], [NaN] at zero. *)
Definition signed_inf (x : Q) : num :=
  match x ?= 0 with
  | Eq => NaN
  | Gt => PInf
  | Lt => NInf
  end.

(** [a * b] *)
Definition mul (a b : num) : num :=
  match a, b with
  | NaN, _ | _, NaN => NaN
  | Fin x, Fin y => Fin (x * y)
  | PInf, Fin y | Fin y, PInf => signed_inf y
  | NInf, Fin y | Fin y, NInf => signed_inf (- y)
  | PInf, PInf | NInf, NInf => PInf
  | PInf, NInf | NInf, PInf => NInf
  end.

(** [a / b]; a finite non-zero number over zero is an infinity, [0 / 0] is
    [NaN]. *)
Definition div (a b : num) : num :=
  match a, b with
  | NaN, _ | _, NaN => NaN
  | Fin x, Fin y =>
      match y ?= 0 with
      | Eq => signed_inf x
      | _ => Fin (x / y)
      end
  | Fin _, PInf | Fin _, NInf => Fin 0
  | PInf, Fin y => match y ?= 0 with Lt => NInf | _ => PInf end
  | NInf, Fin y => match y ?= 0 with Lt => PInf | _ => NInf end
  | _, _ => NaN
  end.

(** [a > b]; false as soon as one side is [NaN]. *)
Definition gtb (a b : num) : bool :=
  match a, b with
  | NaN, _ | _, NaN => false
  | Fin x, Fin y => match x ?= y with Gt => true | _ => false end
  | PInf, PInf => false
  | PInf, _ => true
  | _, NInf => match a with NInf => false | _ => true end
  | _, _ => false
  end.

(** [a <= b] *)
Definition leb (a b : num) : bool :=
  match a, b with
  | NaN, _ | _, NaN => false
  | _, _ => negb (gtb a b)
  end.

Definition le (a b : num) : Prop := leb a b = true.

(** [Math.max(a, b)] *)
Definition max (a b : num) : num :=
  match a, b with
  | NaN, _ | _, NaN => NaN
  | _, _ => if gtb b a then b else a
  end.

(** [Math.min(a, b)] *)
Definition min (a b : num) : num :=
  match a, b with
  | NaN, _ | _, NaN => NaN
  | _, _ => if gtb a b then b else a
  end.

(** [Object.is(a, b)] on numbers, by which a ref decides whether a write
    changes its value. *)
Definition same (a b : num) : bool :=
  match a, b with
  | Fin x, Fin y => Qeq_bool x y
  | PInf, PInf | NInf, NInf | NaN, NaN => true
  | _, _ => false
  end.

(** [x || d] on a number: [0] and [NaN] are falsy. *)
Definition or_else (x d : num) : num :=
  match x with
  | Fin q => match q ?= 0 with Eq => d | _ => x end
  | NaN => d
  | _ => x
  end.

End JS.

Import JS.

Declare Scope num_scope.
Delimit Scope num_scope with num.
Infix "=n=" := num_eq (at level 70, no associativity) : num_scope.


(** ** The browser side: elements, events, the document *)

(** A listener is identified by its event type and its callback; the
    callbacks are the component's own named functions. *)
Inductive Listener : Type :=
| LScroll      (* 'scroll',    throttledHandleScroll *)
| LKeydown     (* 'keydown',   handleKeyDown *)
| LMouseMove   (* 'mousemove', handleMouseMove *)
| LMouseUp     (* 'mouseup',   handleMouseUp *)
| LTouchMove   (* 'touchmove', handleTouchMove *)
| LTouchEnd.   (* 'touchend',  handleTouchEnd *)

Definition Listener_eq_dec (a b : Listener) : {a = b} + {a <> b}.
Proof. decide equality. Defined.

(** [addEventListener]: a listener already in the list (same type and
    callback) is not added a second time. *)
Definition addEventListener (l : Listener) (ls : list Listener) : list Listener :=
  if in_dec Listener_eq_dec l ls then ls else ls ++ [l].

Definition removeEventListener (l : Listener) (ls : list Listener) : list Listener :=
  remove Listener_eq_dec l ls.

(** An element of the page, with the metrics the component reads.  The
    widths are DOM [long]s, hence finite; [el_scrollLeft] holds the number
    last assigned to (or scrolled into) [scrollLeft], as assigned: what the
    browser then makes of it (rounding, its own range) is not part of
    this script.  The target and the content element are kept as two
    records even when both selectors name one element: the script reads
    [clientWidth] and [scrollLeft] only through the first and [scrollWidth]
    only through the second, and writes only [scrollLeft]. *)
Record Element : Type := mkElement {
  clientWidth : Q;
  scrollWidth : Q;
  el_scrollLeft : num;
  el_listeners : list Listener
}.

Definition set_el_scrollLeft (x : num) (el : Element) : Element :=
  {| clientWidth := clientWidth el; scrollWidth := scrollWidth el;
     el_scrollLeft := x; el_listeners := el_listeners el |}.

Definition set_el_listeners (ls : list Listener) (el : Element) : Element :=
  {| clientWidth := clientWidth el; scrollWidth := scrollWidth el;
     el_scrollLeft := el_scrollLeft el; el_listeners := ls |}.

(** The track element behind [customScrollbarRef]: its [offsetWidth] and the
    [left] of its bounding client rectangle. *)
Record ScrollbarEl : Type := mkScrollbarEl {
  offsetWidth : Q;
  rectLeft : Q
}.

(** [target] is the identity of the element the event was dispatched to. *)
Record MouseEvent : Type := mkMouseEvent {
  clientX : Q;
  target : nat
}.

(** A touch event with the [clientX] of [touches[0]]; touchstart and
    touchmove always carry at least one touch. *)
Record TouchEvent : Type := mkTouchEvent {
  touch0_clientX : Q
}.

Record KeyboardEvent : Type := mkKeyboardEvent {
  key : string
}.

(** What a call into foreign code does: return a value or throw. *)
Inductive Outcome (A : Type) : Type :=
| Returns (a : A)
| Throws (err : string).
Arguments Returns {A} a.
Arguments Throws {A} err.

(** [document.querySelector]: an element, [null], or a thrown error (a
    selector that does not parse). *)
Record Document : Type := mkDocument {
  querySelector : string -> Outcome (option Element)
}.

(** [ElementSelector]: a query string or a resolver function; [SelOther]
    is any other value. A resolver returns an element or a falsy value
    ([None]), or throws. *)
Inductive ElementSelector : Type :=
| SelString (sel : string)
| SelFunction (resolver : unit -> Outcome (option Element))
| SelOther.

(** ** Props, notifications, component state *)

Record Props : Type := mkProps {
  targetSelector : ElementSelector;
  contentSelector : ElementSelector;
  autoShow : bool;
  minScrollDistance : num;
  enableKeyboard : bool;
  scrollStep : num;
  minThumbWidth : num;
  throttleDelay : num;
  disabled : bool
}.

(** [withDefaults]: the props of a component given only its selectors. *)
Definition default_props (t c : ElementSelector) : Props :=
  {| targetSelector := t; contentSelector := c;
     autoShow := true; minScrollDistance := Fin 50;
     enableKeyboard := true; scrollStep := Fin 50;
     minThumbWidth := Fin 30; throttleDelay := Fin 16;
     disabled := false |}.

Record ScrollInfo : Type := mkScrollInfo {
  si_scrollLeft : num;
  si_maxScroll : num;
  si_scrollPercent : num
}.

Inductive DragEvent : Type :=
| OfMouse (e : MouseEvent)
| OfTouch (e : TouchEvent).

Inductive DragKind : Type := ByMouse | ByTouch.

Inductive Notification : Type :=
| NReady
| NError (err : string)
| NScroll (info : ScrollInfo)
| NClick (e : MouseEvent)
| NDragStart (e : DragEvent)
| NDragEnd (k : DragKind)
| NKeydown (e : KeyboardEvent).

(** What a handler lets the outside observe, in order. *)
Inductive Effect : Type :=
| Emit (n : Notification)
| PreventDefault
| ConsoleWarn
| ConsoleError.

Inductive Observed : Type := ObsTarget | ObsContent.

(** The string [`${n}px`] of a style, and [Number.parseFloat] on it, which
    reads the number back. *)
Inductive px : Type := Px (n : num).

Definition parseFloat (p : px) : num := match p with Px n => n end.

Record Style : Type := mkStyle {
  width : px;
  left : px
}.

(** The refs and variables of the script block. [resizeObserver] is
    [Some l] once created, [l] being what it still observes.
    [thumbStyleValue] is the value the computed [thumbStyle] holds: what
    [thumbStyle.value] returns, namely the result of the getter's last
    evaluation. *)
Record Comp : Type := mkComp {
  props : Props;
  scrollLeft : num;
  maxScroll : num;
  scrollPercent : num;
  showScrollbar : bool;
  isVisible : bool;
  customScrollbarRef : option ScrollbarEl;
  customScrollbarThumbRef : option nat;
  isDragging : bool;
  dragStartX : num;
  dragStartScrollLeft : num;
  targetElement : option Element;
  contentElement : option Element;
  resizeObserver : option (list Observed);
  documentListeners : list Listener;
  log : list Effect;
  thumbStyleValue : Style
}.

Section Setters.
Variable s : Comp.

Definition set_props (p : Props) : Comp :=
  mkComp p (scrollLeft s) (maxScroll s) (scrollPercent s)
    (showScrollbar s) (isVisible s) (customScrollbarRef s)
    (customScrollbarThumbRef s) (isDragging s) (dragStartX s)
    (dragStartScrollLeft s) (targetElement s) (contentElement s)
    (resizeObserver s) (documentListeners s) (log s) (thumbStyleValue s).

Definition set_scrollState (sl ms sp : num) : Comp :=
  mkComp (props s) sl ms sp
    (showScrollbar s) (isVisible s) (customScrollbarRef s)
    (customScrollbarThumbRef s) (isDragging s) (dragStartX s)
    (dragStartScrollLeft s) (targetElement s) (contentElement s)
    (resizeObserver s) (documentListeners s) (log s) (thumbStyleValue s).

Definition set_showScrollbar (b : bool) : Comp :=
  mkComp (props s) (scrollLeft s) (maxScroll s) (scrollPercent s)
    b (isVisible s) (customScrollbarRef s)
    (customScrollbarThumbRef s) (isDragging s) (dragStartX s)
    (dragStartScrollLeft s) (targetElement s) (contentElement s)
    (resizeObserver s) (documentListeners s) (log s) (thumbStyleValue s).

Definition set_isVisible (b : bool) : Comp :=
  mkComp (props s) (scrollLeft s) (maxScroll s) (scrollPercent s)
    (showScrollbar s) b (customScrollbarRef s)
    (customScrollbarThumbRef s) (isDragging s) (dragStartX s)
    (dragStartScrollLeft s) (targetElement s) (contentElement s)
    (resizeObserver s) (documentListeners s) (log s) (thumbStyleValue s).

Definition set_templateRefs (sb : option ScrollbarEl) (th : option nat) : Comp :=
  mkComp (props s) (scrollLeft s) (maxScroll s) (scrollPercent s)
    (showScrollbar s) (isVisible s) sb th
    (isDragging s) (dragStartX s)
    (dragStartScrollLeft s) (targetElement s) (contentElement s)
    (resizeObserver s) (documentListeners s) (log s) (thumbStyleValue s).

Definition set_isDragging (b : bool) : Comp :=
  mkComp (props s) (scrollLeft s) (maxScroll s) (scrollPercent s)
    (showScrollbar s) (isVisible s) (customScrollbarRef s)
    (customScrollbarThumbRef s) b (dragStartX s)
    (dragStartScrollLeft s) (targetElement s) (contentElement s)
    (resizeObserver s) (documentListeners s) (log s) (thumbStyleValue s).

Definition set_dragStart (x sl : num) : Comp :=
  mkComp (props s) (scrollLeft s) (maxScroll s) (scrollPercent s)
    (showScrollbar s) (isVisible s) (customScrollbarRef s)
    (customScrollbarThumbRef s) (isDragging s) x sl
    (targetElement s) (contentElement s)
    (resizeObserver s) (documentListeners s) (log s) (thumbStyleValue s).

Definition set_targetElement (el : option Element) : Comp :=
  mkComp (props s) (scrollLeft s) (maxScroll s) (scrollPercent s)
    (showScrollbar s) (isVisible s) (customScrollbarRef s)
    (customScrollbarThumbRef s) (isDragging s) (dragStartX s)
    (dragStartScrollLeft s) el (contentElement s)
    (resizeObserver s) (documentListeners s) (log s) (thumbStyleValue s).

Definition set_contentElement (el : option Element) : Comp :=
  mkComp (props s) (scrollLeft s) (maxScroll s) (scrollPercent s)
    (showScrollbar s) (isVisible s) (customScrollbarRef s)
    (customScrollbarThumbRef s) (isDragging s) (dragStartX s)
    (dragStartScrollLeft s) (targetElement s) el
    (resizeObserver s) (documentListeners s) (log s) (thumbStyleValue s).

Definition set_resizeObserver (o : option (list Observed)) : Comp :=
  mkComp (props s) (scrollLeft s) (maxScroll s) (scrollPercent s)
    (showScrollbar s) (isVisible s) (customScrollbarRef s)
    (customScrollbarThumbRef s) (isDragging s) (dragStartX s)
    (dragStartScrollLeft s) (targetElement s) (contentElement s)
    o (documentListeners s) (log s) (thumbStyleValue s).

Definition set_documentListeners (ls : list Listener) : Comp :=
  mkComp (props s) (scrollLeft s) (maxScroll s) (scrollPercent s)
    (showScrollbar s) (isVisible s) (customScrollbarRef s)
    (customScrollbarThumbRef s) (isDragging s) (dragStartX s)
    (dragStartScrollLeft s) (targetElement s) (contentElement s)
    (resizeObserver s) ls (log s) (thumbStyleValue s).

Definition set_log (l : list Effect) : Comp :=
  mkComp (props s) (scrollLeft s) (maxScroll s) (scrollPercent s)
    (showScrollbar s) (isVisible s) (customScrollbarRef s)
    (customScrollbarThumbRef s) (isDragging s) (dragStartX s)
    (dragStartScrollLeft s) (targetElement s) (contentElement s)
    (resizeObserver s) (documentListeners s) l (thumbStyleValue s).

Definition set_thumbStyleValue (v : Style) : Comp :=
  mkComp (props s) (scrollLeft s) (maxScroll s) (scrollPercent s)
    (showScrollbar s) (isVisible s) (customScrollbarRef s)
    (customScrollbarThumbRef s) (isDragging s) (dragStartX s)
    (dragStartScrollLeft s) (targetElement s) (contentElement s)
    (resizeObserver s) (documentListeners s) (log s) v.
End Setters.

(** Effects are appended to the log. *)
Definition effect (e : Effect) (s : Comp) : Comp := set_log s (log s ++ [e]).
Definition effects (es : list Effect) (s : Comp) : Comp := set_log s (log s ++ es).
Definition emit (n : Notification) (s : Comp) : Comp := effect (Emit n) s.

Definition document_addEventListener (l : Listener) (s : Comp) : Comp :=
  set_documentListeners s (addEventListener l (documentListeners s)).
Definition document_removeEventListener (l : Listener) (s : Comp) : Comp :=
  set_documentListeners s (removeEventListener l (documentListeners s)).

(** ** The component's functions *)

(** The getter of the computed [thumbStyle], evaluated over a state.  The
    refs and the prop it reads ([targetElement], [contentElement],
    [customScrollbarRef], [minThumbWidth], [maxScroll] and, when maxScroll
    is positive, [scrollLeft]) are its dependencies; the widths it reads
    off the elements are plain DOM properties and are not. *)
Definition thumbStyle (s : Comp) : Style :=
  let targetWidth :=
    match targetElement s with
    | Some el => or_else (Fin (clientWidth el)) (Fin 0)
    | None => Fin 0
    end in
  let contentWidth :=
    match contentElement s with
    | Some el => or_else (Fin (scrollWidth el)) (Fin 1)
    | None => Fin 1
    end in
  let scrollbarWidth :=
    match customScrollbarRef s with
    | Some sb => or_else (Fin (offsetWidth sb)) (Fin 0)
    | None => Fin 0
    end in
  let thumbWidth :=
    max (minThumbWidth (props s))
        (mul (div targetWidth contentWidth) scrollbarWidth) in
  let thumbPosition :=
    if gtb (maxScroll s) (Fin 0)
    then mul (div (scrollLeft s) (maxScroll s)) (sub scrollbarWidth thumbWidth)
    else Fin 0 in
  {| width := Px thumbWidth; left := Px thumbPosition |}.

(** The computed caches the getter's result: a read returns
    [thumbStyleValue], and the getter runs again only after a dependency
    has changed.  Vue re-runs it at the first read after the change; the
    template reads [thumbStyle] at every render, a render follows a change
    before anything else happens to the page, and the handlers below read
    it before they write, so the value is brought up to date here at the
    write that changes a dependency.  A change of a DOM width alone leaves
    the cached value as it is. *)
Definition revalidate (changed : bool) (s : Comp) : Comp :=
  if changed then set_thumbStyleValue s (thumbStyle s) else s.

(** A write to a ref that holds an element or [null]: nothing changes
    when [null] is written over [null]; an element that is written is
    taken to be a new object. *)
Definition element_changed {A : Type} (old new : option A) : bool :=
  match old, new with
  | None, None => false
  | _, _ => true
  end.

(** The state the setup of the script leaves: no element, no listener,
    nothing logged; the computed holds what its getter gives there. *)
Definition initial (p : Props) : Comp :=
  revalidate true
    {| props := p;
       scrollLeft := Fin 0; maxScroll := Fin 0; scrollPercent := Fin 0;
       showScrollbar := false; isVisible := false;
       customScrollbarRef := None; customScrollbarThumbRef := None;
       isDragging := false; dragStartX := Fin 0; dragStartScrollLeft := Fin 0;
       targetElement := None; contentElement := None;
       resizeObserver := None; documentListeners := []; log := [];
       thumbStyleValue := {| width := Px (Fin 0); left := Px (Fin 0) |} |}.

(** [getElement]: the element or [null], and the effects of the call. *)
Definition getElement (doc : Document) (selector : ElementSelector)
  : option Element * list Effect :=
  match selector with
  | SelString sel =>
      match querySelector doc sel with
      | Returns (Some element) => (Some element, [])
      | Returns None =>
          (None, [ConsoleWarn; Emit (NError ("Element not found: " ++ sel))])
      | Throws error => (None, [ConsoleError; Emit (NError error)])
      end
  | SelFunction resolver =>
      match resolver tt with
      | Returns r => (r, [])
      | Throws error => (None, [ConsoleError; Emit (NError error)])
      end
  | SelOther => (None, [])
  end.

(** Whether writing [sl] and [ms] to the refs [scrollLeft] and [maxScroll]
    changes a dependency of [thumbStyle]: [maxScroll] always is one,
    [scrollLeft] was read by the getter only if maxScroll was positive. *)
Definition scrollState_changed (s : Comp) (sl ms : num) : bool :=
  (gtb (maxScroll s) (Fin 0) && negb (same (scrollLeft s) sl))
  || negb (same (maxScroll s) ms).

Definition updateScrollInfo (s : Comp) : Comp :=
  match targetElement s, contentElement s with
  | Some tg, Some ct =>
      let newScrollLeft := el_scrollLeft tg in
      let newMaxScroll :=
        max (Fin 0) (sub (Fin (scrollWidth ct)) (Fin (clientWidth tg))) in
      let newScrollPercent :=
        if gtb newMaxScroll (Fin 0)
        then mul (div newScrollLeft newMaxScroll) (Fin 100)
        else Fin 0 in
      let s1 := set_scrollState s newScrollLeft newMaxScroll newScrollPercent in
      let s2 :=
        if autoShow (props s1)
        then set_showScrollbar s1 (gtb (maxScroll s1) (minScrollDistance (props s1)))
        else set_showScrollbar s1 true in
      let s3 := revalidate (scrollState_changed s newScrollLeft newMaxScroll) s2 in
      emit (NScroll {| si_scrollLeft := newScrollLeft;
                       si_maxScroll := newMaxScroll;
                       si_scrollPercent := newScrollPercent |}) s3
  | _, _ => s
  end.

(** The function wrapped by [throttle], at one of its invocations. *)
Definition throttledHandleScroll (s : Comp) : Comp :=
  if negb (isDragging s) then updateScrollInfo s else s.

(** The callback given to [new ResizeObserver]. *)
Definition resizeObserverCallback (s : Comp) : Comp := updateScrollInfo s.

Definition setupResizeObserver (s : Comp) : Comp :=
  match targetElement s, contentElement s with
  | Some _, Some _ => set_resizeObserver s (Some [ObsTarget; ObsContent])
  | _, _ => s
  end.

Definition setupScrollListener (s : Comp) : Comp :=
  match targetElement s with
  | Some tg =>
      set_targetElement s
        (Some (set_el_listeners (addEventListener LScroll (el_listeners tg)) tg))
  | None => s
  end.

(** [targetElement.value = t] and [contentElement.value = c]. *)
Definition assign_targetElement (t : option Element) (s : Comp) : Comp :=
  revalidate (element_changed (targetElement s) t) (set_targetElement s t).

Definition assign_contentElement (c : option Element) (s : Comp) : Comp :=
  revalidate (element_changed (contentElement s) c) (set_contentElement s c).

(** [initializeTarget], from the point where [nextTick] has resolved. *)
Definition initializeTarget (doc : Document) (s : Comp) : Comp :=
  let (t, et) := getElement doc (targetSelector (props s)) in
  let s1 := assign_targetElement t (effects et s) in
  let (c, ec) := getElement doc (contentSelector (props s1)) in
  let s2 := assign_contentElement c (effects ec s1) in
  match targetElement s2, contentElement s2 with
  | Some _, Some _ =>
      let s3 := setupScrollListener s2 in
      let s4 := setupResizeObserver s3 in
      let s5 := updateScrollInfo s4 in
      let s6 := set_isVisible s5 true in
      emit NReady s6
  | _, _ =>
      emit (NError "Target or content element not found")
           (effect ConsoleError s2)
  end.

Definition scrollToPosition (position : num) (s : Comp) : Comp :=
  match targetElement s with
  | None => s
  | Some tg =>
      let clampedPosition := max (Fin 0) (min (maxScroll s) position) in
      set_targetElement s (Some (set_el_scrollLeft clampedPosition tg))
  end.

Definition scrollToEnd (s : Comp) : Comp := scrollToPosition (maxScroll s) s.

Definition handleScrollbarClick (e : MouseEvent) (s : Comp) : Comp :=
  match customScrollbarRef s, customScrollbarThumbRef s with
  | Some sb, Some th =>
      if disabled (props s) then s
      else if Nat.eqb (target e) th then s
      else
        let clickX := sub (Fin (clientX e)) (Fin (rectLeft sb)) in
        let scrollbarWidth := Fin (offsetWidth sb) in
        let thumbWidth := parseFloat (width (thumbStyleValue s)) in
        let targetScrollLeft :=
          mul (div (sub clickX (div thumbWidth (Fin 2)))
                   (sub scrollbarWidth thumbWidth))
              (maxScroll s) in
        emit (NClick e) (scrollToPosition targetScrollLeft s)
  | _, _ => s
  end.

Definition startDragging (x : num) (s : Comp) : Comp :=
  let s1 := set_isDragging s true in
  set_dragStart s1 x (scrollLeft s1).

Definition handleThumbMouseDown (e : MouseEvent) (s : Comp) : Comp :=
  if disabled (props s) then s
  else
    let s1 := startDragging (Fin (clientX e)) s in
    let s2 := document_addEventListener LMouseMove s1 in
    let s3 := document_addEventListener LMouseUp s2 in
    emit (NDragStart (OfMouse e)) (effect PreventDefault s3).

Definition handleThumbTouchStart (e : TouchEvent) (s : Comp) : Comp :=
  if disabled (props s) then s
  else
    let s1 := startDragging (Fin (touch0_clientX e)) s in
    let s2 := document_addEventListener LTouchMove s1 in
    let s3 := document_addEventListener LTouchEnd s2 in
    emit (NDragStart (OfTouch e)) (effect PreventDefault s3).

Definition updateDragPosition (x : num) (s : Comp) : Comp :=
  match customScrollbarRef s with
  | None => s
  | Some sb =>
      let deltaX := sub x (dragStartX s) in
      let scrollbarWidth := Fin (offsetWidth sb) in
      let thumbWidth := parseFloat (width (thumbStyleValue s)) in
      let scrollRatio := div deltaX (sub scrollbarWidth thumbWidth) in
      let newScrollLeft :=
        add (dragStartScrollLeft s) (mul scrollRatio (maxScroll s)) in
      updateScrollInfo (scrollToPosition newScrollLeft s)
  end.

Definition handleMouseMove (e : MouseEvent) (s : Comp) : Comp :=
  if negb (isDragging s) then s
  else updateDragPosition (Fin (clientX e)) s.

Definition handleTouchMove (e : TouchEvent) (s : Comp) : Comp :=
  if negb (isDragging s) then s
  else effect PreventDefault (updateDragPosition (Fin (touch0_clientX e)) s).

Definition stopDragging (s : Comp) : Comp := set_isDragging s false.

Definition handleMouseUp (s : Comp) : Comp :=
  let s1 := stopDragging s in
  let s2 := document_removeEventListener LMouseMove s1 in
  let s3 := document_removeEventListener LMouseUp s2 in
  emit (NDragEnd ByMouse) s3.

Definition handleTouchEnd (s : Comp) : Comp :=
  let s1 := stopDragging s in
  let s2 := document_removeEventListener LTouchMove s1 in
  let s3 := document_removeEventListener LTouchEnd s2 in
  emit (NDragEnd ByTouch) s3.

Definition handleKeyDown (e : KeyboardEvent) (s : Comp) : Comp :=
  if negb (enableKeyboard (props s)) then s
  else match targetElement s with
  | None => s
  | Some _ =>
    if disabled (props s) then s
    else
      let (s1, handled) :=
        if String.eqb (key e) "ArrowLeft" then
          (scrollToPosition (sub (scrollLeft s) (scrollStep (props s))) s, true)
        else if String.eqb (key e) "ArrowRight" then
          (scrollToPosition (add (scrollLeft s) (scrollStep (props s))) s, true)
        else if String.eqb (key e) "Home" then
          (scrollToPosition (Fin 0) s, true)
        else if String.eqb (key e) "End" then
          (scrollToEnd s, true)
        else (s, false) in
      if handled then emit (NKeydown e) (effect PreventDefault s1) else s1
  end.

Definition cleanup (s : Comp) : Comp :=
  let s1 :=
    match targetElement s with
    | Some tg =>
        set_targetElement s
          (Some (set_el_listeners
                   (removeEventListener LScroll (el_listeners tg)) tg))
    | None => s
    end in
  let s2 :=
    match resizeObserver s1 with
    | Some _ => set_resizeObserver s1 (Some [])
    | None => s1
    end in
  let s3 := document_removeEventListener LKeydown s2 in
  let s4 := document_removeEventListener LMouseMove s3 in
  let s5 := document_removeEventListener LMouseUp s4 in
  let s6 := document_removeEventListener LTouchMove s5 in
  document_removeEventListener LTouchEnd s6.

(** The synchronous part of the [onMounted] hook; [initializeTarget] runs
    on from its [await] afterwards. *)
Definition onMounted (s : Comp) : Comp :=
  if enableKeyboard (props s)
  then document_addEventListener LKeydown s
  else s.

Definition onUnmounted (s : Comp) : Comp := cleanup s.

(** ** The component as a transition system *)

(** What happens around the component: the user scrolls the target
    natively, the layout changes the metrics, the template is rendered or
    removed, the parent changes the props. *)
Definition env_scroll (x : num) (s : Comp) : Comp :=
  match targetElement s with
  | Some tg => set_targetElement s (Some (set_el_scrollLeft x tg))
  | None => s
  end.

Definition set_el_widths (cw sw : Q) (el : Element) : Element :=
  {| clientWidth := cw; scrollWidth := sw;
     el_scrollLeft := el_scrollLeft el; el_listeners := el_listeners el |}.

Definition env_layout (tcw tsw ccw csw : Q) (s : Comp) : Comp :=
  set_contentElement
    (set_targetElement s (option_map (set_el_widths tcw tsw) (targetElement s)))
    (option_map (set_el_widths ccw csw) (contentElement s)).

(** A render that mounts or unmounts the track and the thumb sets the
    template refs. *)
Definition env_render (sb : option ScrollbarEl) (th : option nat) (s : Comp)
  : Comp :=
  revalidate (element_changed (customScrollbarRef s) sb)
             (set_templateRefs s sb th).

(** The layout gives the track another width or place; no ref changes. *)
Definition env_track (w l : Q) (s : Comp) : Comp :=
  set_templateRefs s
    (option_map (fun _ => {| offsetWidth := w; rectLeft := l |})
                (customScrollbarRef s))
    (customScrollbarThumbRef s).

(** The parent passes other props. *)
Definition env_props (p : Props) (s : Comp) : Comp :=
  revalidate (negb (same (minThumbWidth (props s)) (minThumbWidth p)))
             (set_props s p).

Inductive Action : Type :=
| AMounted
| AInitializeTarget (doc : Document)
| AScroll
| AResize
| AClick (e : MouseEvent)
| AMouseDown (e : MouseEvent)
| ATouchStart (e : TouchEvent)
| AMouseMove (e : MouseEvent)
| ATouchMove (e : TouchEvent)
| AMouseUp
| ATouchEnd
| AKeyDown (e : KeyboardEvent)
| AScrollToPosition (position : num)
| AScrollToEnd
| AUpdateScrollInfo
| AUnmounted
| AEnvScroll (x : num)
| AEnvLayout (tcw tsw ccw csw : Q)
| AEnvRender (sb : option ScrollbarEl) (th : option nat)
| AEnvTrack (w l : Q)
| AEnvProps (p : Props).

(** One step. Handlers are allowed to run in any state, attached or not:
    the states reached this way include those of every real run. *)
Definition step (a : Action) (s : Comp) : Comp :=
  match a with
  | AMounted => onMounted s
  | AInitializeTarget doc => initializeTarget doc s
  | AScroll => throttledHandleScroll s
  | AResize => resizeObserverCallback s
  | AClick e => handleScrollbarClick e s
  | AMouseDown e => handleThumbMouseDown e s
  | ATouchStart e => handleThumbTouchStart e s
  | AMouseMove e => handleMouseMove e s
  | ATouchMove e => handleTouchMove e s
  | AMouseUp => handleMouseUp s
  | ATouchEnd => handleTouchEnd s
  | AKeyDown e => handleKeyDown e s
  | AScrollToPosition p => scrollToPosition p s
  | AScrollToEnd => scrollToEnd s
  | AUpdateScrollInfo => updateScrollInfo s
  | AUnmounted => onUnmounted s
  | AEnvScroll x => env_scroll x s
  | AEnvLayout tcw tsw ccw csw => env_layout tcw tsw ccw csw s
  | AEnvRender sb th => env_render sb th s
  | AEnvTrack w l => env_track w l s
  | AEnvProps p => env_props p s
  end.

Definition run (acts : list Action) (s : Comp) : Comp :=
  fold_left (fun st a => step a st) acts s.

Inductive reachable : Comp -> Prop :=
| reach_initial (p : Props) : reachable (initial p)
| reach_step (a : Action) (s : Comp) : reachable s -> reachable (step a s).

(** The Scroll State refs, which only [updateScrollInfo] writes. *)
Definition scrollRefs (s : Comp) : num * num * num :=
  (scrollLeft s, maxScroll s, scrollPercent s).

(** [scrollPercent == (maxScroll > 0 ? scrollLeft / maxScroll * 100 : 0)] *)
Definition percent_of (sl ms : num) : num :=
  if gtb ms (Fin 0) then mul (div sl ms) (Fin 100) else Fin 0.

Definition scrollState_ok (s : Comp) : Prop :=
  (exists m, maxScroll s = Fin m /\ 0 <= m) /\
  scrollPercent s = percent_of (scrollLeft s) (maxScroll s).

(** ** Derived notions *)

(** The track's width as [thumbStyle] sees it: 0 without a track. *)
Definition trackWidth (s : Comp) : Q :=
  match customScrollbarRef s with
  | Some sb => offsetWidth sb
  | None => 0
  end.

(** The state with another value in the [scrollLeft] ref. *)
Definition with_scrollLeft (x : num) (s : Comp) : Comp :=
  set_scrollState s x (maxScroll s) (scrollPercent s).

(** The local constants of [thumbStyle], by name. *)
Definition targetWidth_of (s : Comp) : num :=
  match targetElement s with
  | Some el => or_else (Fin (clientWidth el)) (Fin 0)
  | None => Fin 0
  end.

Definition contentWidth_of (s : Comp) : num :=
  match contentElement s with
  | Some el => or_else (Fin (scrollWidth el)) (Fin 1)
  | None => Fin 1
  end.

Definition scrollbarWidth_of (s : Comp) : num :=
  match customScrollbarRef s with
  | Some sb => or_else (Fin (offsetWidth sb)) (Fin 0)
  | None => Fin 0
  end.

Definition thumbWidth_of (s : Comp) : num := parseFloat (width (thumbStyle s)).

(** The offset last written to the target element is the finite number [q]
    (up to the representation of the rational). *)
Definition offset_is (s : Comp) (q : Q) : Prop :=
  exists tg c, targetElement s = Some tg /\ el_scrollLeft tg = Fin c /\ c == q.

(** The offset last written to the target, whatever kind of number. *)
Definition written_offset (s : Comp) : option num :=
  option_map el_scrollLeft (targetElement s).

(** What [cleanup] leaves of the document's listeners. *)
Definition without_component_listeners (ls : list Listener) : list Listener :=
  removeEventListener LTouchEnd
    (removeEventListener LTouchMove
       (removeEventListener LMouseUp
          (removeEventListener LMouseMove
             (removeEventListener LKeydown ls)))).

(** [c] is [p] clamped to [[0, m]]. *)
Definition clamped_to (m p c : Q) : Prop :=
  0 <= c <= m /\
  (p <= 0 -> c == 0) /\ (m <= p -> c == m) /\ (0 <= p <= m -> c == p).

(** The Scroll State as a notification would carry it. *)
Definition published (s : Comp) : ScrollInfo :=
  {| si_scrollLeft := scrollLeft s;
     si_maxScroll := maxScroll s;
     si_scrollPercent := scrollPercent s |}.

(** What a listener to the scroll notifications knows after the effects
    [l], having known [start] before. *)
Definition last_scroll (l : list Effect) (start : ScrollInfo) : ScrollInfo :=
  fold_left
    (fun known e => match e with Emit (NScroll info) => info | _ => known end)
    l start.

(** A Scroll State with a finite non-negative maxScroll and the percentage
    that goes with it. *)
Definition scrollInfo_ok (info : ScrollInfo) : Prop :=
  (exists m, si_maxScroll info = Fin m /\ 0 <= m) /\
  si_scrollPercent info
  = percent_of (si_scrollLeft info) (si_maxScroll info).

(** [s'] comes from [s] by logging more effects; the scroll notifications
    among them are well formed and the last one, if any, carries the Scroll
    State of [s'], which otherwise is that of [s]. *)
Definition extends (s s' : Comp) : Prop :=
  exists es,
    log s' = (log s ++ es)%list /\
    last_scroll es (published s) = published s' /\
    forall info, In (Emit (NScroll info)) es -> scrollInfo_ok info.

(** ** Sample pages *)

(** A concrete page: a 500 wide viewport over 1500 wide content, a 300
    wide track at x = 40, the thumb being element 7. *)
Definition demo_target : Element :=
  {| clientWidth := 500; scrollWidth := 1500;
     el_scrollLeft := Fin 0; el_listeners := [] |}.

Definition demo_content : Element :=
  {| clientWidth := 1500; scrollWidth := 1500;
     el_scrollLeft := Fin 0; el_listeners := [] |}.

Definition demo_doc : Document :=
  {| querySelector := fun sel =>
       if String.eqb sel "#viewport" then Returns (Some demo_target)
       else if String.eqb sel "#content" then Returns (Some demo_content)
       else if String.eqb sel "##" then Throws "SyntaxError"
       else Returns None |}.

Definition demo_props : Props :=
  default_props (SelString "#viewport") (SelString "#content").

Definition demo_track : ScrollbarEl := {| offsetWidth := 300; rectLeft := 40 |}.

(** Mounted, initialised and rendered. *)
Definition demo_ready : Comp :=
  run [AMounted; AInitializeTarget demo_doc;
       AEnvRender (Some demo_track) (Some 7%nat)] (initial demo_props).

Definition demo_disabled : Comp :=
  set_props demo_ready
    {| targetSelector := SelString "#viewport";
       contentSelector := SelString "#content";
       autoShow := true; minScrollDistance := Fin 50;
       enableKeyboard := true; scrollStep := Fin 50;
       minThumbWidth := Fin 30; throttleDelay := Fin 16;
       disabled := true |}.

(** A drag that has not moved yet: the thumb was pressed at x = 60, then
    the target was scrolled natively to 120. *)
Definition demo_dragging : Comp :=
  run [AMouseDown {| clientX := 60; target := 7%nat |}; AEnvScroll (Fin 120)]
      demo_ready.

(** A drag under way: a press at x = 60 and a move to x = 90, which
    scrolls the target to 150. *)
Definition demo_dragged : Comp :=
  run [AMouseDown {| clientX := 60; target := 7%nat |};
       AMouseMove {| clientX := 90; target := 7%nat |}] demo_ready.

(** The same page with a track only 20 wide, narrower than the default
    [minThumbWidth] of 30. *)
Definition demo_narrow : Comp :=
  run [AMounted; AInitializeTarget demo_doc;
       AEnvRender (Some {| offsetWidth := 20; rectLeft := 40 |}) (Some 7%nat)]
      (initial demo_props).

(** The page scrolled natively to 250, the refs brought up to date by the
    scroll handler. *)
Definition demo_at250 : Comp := run [AEnvScroll (Fin 250); AScroll] demo_ready.

(** The same page with a track 30 wide, which the default [minThumbWidth]
    of 30 fills; the target has been scrolled to 200. *)
Definition demo_thin : Comp :=
  run [AMounted; AInitializeTarget demo_doc;
       AEnvRender (Some {| offsetWidth := 30; rectLeft := 40 |}) (Some 7%nat);
       AEnvScroll (Fin 200); AScroll]
      (initial demo_props).

(** The rendered page after the layout has shrunk the track to 150; no
    ref has changed since the computed was evaluated with the track 300
    wide. *)
Definition demo_shrunk : Comp := run [AEnvTrack 150 40] demo_ready.

(** The same with the thumb pressed at x = 60 before the track shrank. *)
Definition demo_shrunk_dragging : Comp :=
  run [AMouseDown {| clientX := 60; target := 7%nat |}; AEnvTrack 150 40]
      demo_ready.

(** ** Arithmetic of finite numbers *)

Section FiniteArithmetic.
Variables x y : Q.

Lemma gtb_fin : gtb (Fin x) (Fin y) = true <-> y < x.
Proof.
  simpl. rewrite Qgt_alt. destruct (x ?= y); split; congruence.
Qed.

Lemma gtb_fin_false : gtb (Fin x) (Fin y) = false <-> x <= y.
Proof.
  simpl. rewrite Qle_alt. destruct (x ?= y); split; congruence.
Qed.

Lemma div_fin : ~ y == 0 -> div (Fin x) (Fin y) = Fin (x / y).
Proof.
  intros Hy. simpl. rewrite Qeq_alt in Hy.
  destruct (y ?= 0); congruence.
Qed.

Lemma div_fin_zero : y == 0 -> div (Fin x) (Fin y) = signed_inf x.
Proof.
  intros Hy. simpl. rewrite Qeq_alt in Hy. now rewrite Hy.
Qed.

End FiniteArithmetic.

Section MinMax.
Variables x y : Q.

Lemma max_fin :
  exists z, max (Fin x) (Fin y) = Fin z /\ (z = x \/ z = y) /\
            x <= z /\ y <= z.
Proof.
  unfold max. destruct (gtb (Fin y) (Fin x)) eqn:E.
  - apply gtb_fin in E. exists y. repeat split; auto; lra.
  - apply gtb_fin_false in E. exists x. repeat split; auto; lra.
Qed.

Lemma min_fin :
  exists z, min (Fin x) (Fin y) = Fin z /\ (z = x \/ z = y) /\
            z <= x /\ z <= y.
Proof.
  unfold min. destruct (gtb (Fin x) (Fin y)) eqn:E.
  - apply gtb_fin in E. exists y. repeat split; auto; lra.
  - apply gtb_fin_false in E. exists x. repeat split; auto; lra.
Qed.

Lemma le_fin : le (Fin x) (Fin y) <-> x <= y.
Proof.
  unfold le, leb. rewrite negb_true_iff. apply gtb_fin_false.
Qed.
End MinMax.

Lemma signed_inf_pos (x : Q) : 0 < x -> signed_inf x = PInf.
Proof.
  intros H. unfold signed_inf.
  destruct (Qcompare_spec x 0); try reflexivity; lra.
Qed.

Lemma signed_inf_neg (x : Q) : x < 0 -> signed_inf x = NInf.
Proof.
  intros H. unfold signed_inf.
  destruct (Qcompare_spec x 0); try reflexivity; lra.
Qed.

Lemma signed_inf_zero (x : Q) : x == 0 -> signed_inf x = NaN.
Proof.
  intros H. unfold signed_inf.
  destruct (Qcompare_spec x 0); try reflexivity; lra.
Qed.

(** [Math.max(0, Math.min(m, p))] on finite numbers is the clamp of [p]
    to [[0, m]]. *)
Lemma clamp_fin (m p : Q) :
  0 <= m ->
  exists c, max (Fin 0) (min (Fin m) (Fin p)) = Fin c /\
            0 <= c <= m /\
            (p <= 0 -> c == 0) /\ (m <= p -> c == m) /\
            (0 <= p <= m -> c == p).
Proof.
  intros Hm.
  destruct (min_fin m p) as (z & -> & Hz & Hzm & Hzp).
  destruct (max_fin 0 z) as (c & -> & Hc & H0c & Hzc).
  exists c. split; [reflexivity|].
  destruct Hz as [-> | ->], Hc as [-> | ->]; repeat split; intros; lra.
Qed.

(** The non-finite cases the handlers can run into. *)
Example division_by_zero :
  div (Fin 5) (Fin 0) = PInf /\ div (Fin (-5)) (Fin 0) = NInf /\
  div (Fin 0) (Fin 0) = NaN /\ mul PInf (Fin 0) = NaN /\
  add (Fin 200) PInf = PInf /\
  max (Fin 0) (min (Fin 1000) PInf) = Fin 1000 /\
  max (Fin 0) (min (Fin 1000) NInf) = Fin 0 /\
  max (Fin 0) (min (Fin 1000) NaN) = NaN.
Proof. repeat split. Qed.

(** Viewport 500, content 1500, track 300, minThumbWidth 30: the thumb is
    100 wide, at 0 for scrollLeft 0 and at 200 for scrollLeft 1000. *)
Example thumbStyle_scenario :
  (thumbWidth_of demo_ready =n= Fin 100)%num /\
  (parseFloat (left (thumbStyle (with_scrollLeft (Fin 0) demo_ready)))
   =n= Fin 0)%num /\
  (parseFloat (left (thumbStyle (with_scrollLeft (Fin 1000) demo_ready)))
   =n= Fin 200)%num.
Proof. repeat split. Qed.

(** Auto-show with [minScrollDistance] 50: hidden at maxScroll 40, shown
    at maxScroll 60. *)
Example autoShow_scenario :
  let at40 := run [AEnvLayout 500 500 540 540; AResize] demo_ready in
  let at60 := run [AEnvLayout 500 500 560 560; AResize] demo_ready in
  (maxScroll at40 =n= Fin 40)%num /\ showScrollbar at40 = false /\
  (maxScroll at60 =n= Fin 60)%num /\ showScrollbar at60 = true.
Proof. repeat split. Qed.

(** A change of the track's width alone does not reach the computed: it
    still holds the width 100 computed for the track of 300, where the
    getter now gives 50. A click at x = 110 uses the track's new width and
    the thumb's old one and writes (70 - 50) / (150 - 100) * 1000 = 400. *)
Example stale_thumb_width_click :
  (parseFloat (width (thumbStyleValue demo_shrunk)) =n= Fin 100)%num /\
  (thumbWidth_of demo_shrunk =n= Fin 50)%num /\
  offset_is
    (handleScrollbarClick {| clientX := 110; target := 3%nat |} demo_shrunk)
    400.
Proof.
  split; [vm_compute; reflexivity|]. split; [vm_compute; reflexivity|].
  eexists _, _. split; [vm_compute; reflexivity|]. split; reflexivity.
Qed.

(** With the computed out of date, a first drag move brings it up to date
    (it changes the published scrollLeft), so a second move computes with
    another thumb width: moves to +10 and then +20 write 200 and 200,
    where the move to +20 alone writes 400. *)
Example stale_thumb_width_drag :
  let move x := handleMouseMove {| clientX := x; target := 7%nat |} in
  offset_is (move 70 demo_shrunk_dragging) 200 /\
  offset_is (move 80 (move 70 demo_shrunk_dragging)) 200 /\
  offset_is (move 80 demo_shrunk_dragging) 400 /\
  (parseFloat (width (thumbStyleValue (move 70 demo_shrunk_dragging)))
   =n= Fin 50)%num.
Proof.
  cbv zeta.
  split; [eexists _, _; split; [vm_compute; reflexivity|]; split; reflexivity|].
  split; [eexists _, _; split; [vm_compute; reflexivity|]; split; reflexivity|].
  split; [eexists _, _; split; [vm_compute; reflexivity|]; split; reflexivity|].
  vm_compute. reflexivity.
Qed.

(** ** Scroll State: single writer, and its invariant *)

Lemma scrollState_ok_ext (s s' : Comp) :
  scrollRefs s' = scrollRefs s -> scrollState_ok s -> scrollState_ok s'.
Proof.
  unfold scrollRefs, scrollState_ok. intros E H.
  injection E as -> -> ->. exact H.
Qed.

Lemma max_zero_sub_fin (a b : Q) :
  exists m, max (Fin 0) (sub (Fin a) (Fin b)) = Fin m /\ 0 <= m.
Proof.
  destruct (max_fin 0 (a + - b)) as (m & E & _ & H0 & _).
  exists m. split; [exact E | exact H0].
Qed.

Lemma updateScrollInfo_fresh (s : Comp) (tg ct : Element) :
  targetElement s = Some tg -> contentElement s = Some ct ->
  let ms := max (Fin 0) (sub (Fin (scrollWidth ct)) (Fin (clientWidth tg))) in
  scrollRefs (updateScrollInfo s)
  = (el_scrollLeft tg, ms, percent_of (el_scrollLeft tg) ms).
Proof.
  intros Ht Hc. unfold updateScrollInfo. rewrite Ht, Hc.
  cbv zeta. unfold revalidate.
  destruct (autoShow _), (scrollState_changed _ _ _); reflexivity.
Qed.

Lemma updateScrollInfo_unresolved (s : Comp) :
  targetElement s = None \/ contentElement s = None ->
  updateScrollInfo s = s.
Proof.
  unfold updateScrollInfo.
  intros [H | H]; rewrite H; [reflexivity|].
  destruct (targetElement s); reflexivity.
Qed.

Lemma updateScrollInfo_ok (s : Comp) :
  scrollState_ok s -> scrollState_ok (updateScrollInfo s).
Proof.
  intros H.
  destruct (targetElement s) as [tg|] eqn:Ht;
    [destruct (contentElement s) as [ct|] eqn:Hc|].
  - pose proof (updateScrollInfo_fresh s tg ct Ht Hc) as E.
    cbv zeta in E. unfold scrollRefs in E. injection E as E1 E2 E3.
    unfold scrollState_ok. rewrite E1, E2, E3.
    split; [apply max_zero_sub_fin | reflexivity].
  - rewrite updateScrollInfo_unresolved; auto.
  - rewrite updateScrollInfo_unresolved; auto.
Qed.

Lemma scrollToPosition_refs (p : num) (s : Comp) :
  scrollRefs (scrollToPosition p s) = scrollRefs s.
Proof.
  unfold scrollToPosition. destruct (targetElement s); reflexivity.
Qed.

Lemma cleanup_refs (s : Comp) : scrollRefs (cleanup s) = scrollRefs s.
Proof.
  unfold cleanup.
  destruct (targetElement s); cbn; destruct (resizeObserver s); reflexivity.
Qed.

Lemma handleKeyDown_refs (e : KeyboardEvent) (s : Comp) :
  scrollRefs (handleKeyDown e s) = scrollRefs s.
Proof.
  unfold handleKeyDown, scrollToEnd.
  destruct (enableKeyboard _); cbn; [|reflexivity].
  destruct (targetElement s) eqn:Ht; [|reflexivity].
  destruct (disabled _); [reflexivity|].
  repeat match goal with
         | |- context [String.eqb ?a ?b] => destruct (String.eqb a b)
         end;
    cbn; try reflexivity;
    unfold scrollToPosition; rewrite Ht; reflexivity.
Qed.

(** Frame: the other writes leave the Scroll State refs alone. *)
Lemma effects_refs (es : list Effect) (s : Comp) :
  scrollRefs (effects es s) = scrollRefs s.
Proof. reflexivity. Qed.

Lemma emit_refs (n : Notification) (s : Comp) :
  scrollRefs (emit n s) = scrollRefs s.
Proof. reflexivity. Qed.

Lemma effect_refs (e : Effect) (s : Comp) :
  scrollRefs (effect e s) = scrollRefs s.
Proof. reflexivity. Qed.

Lemma setupScrollListener_refs (s : Comp) :
  scrollRefs (setupScrollListener s) = scrollRefs s.
Proof. unfold setupScrollListener. destruct (targetElement s); reflexivity. Qed.

Lemma setupResizeObserver_refs (s : Comp) :
  scrollRefs (setupResizeObserver s) = scrollRefs s.
Proof.
  unfold setupResizeObserver.
  destruct (targetElement s); [destruct (contentElement s)|]; reflexivity.
Qed.

(** Bringing the computed up to date touches nothing but its value. *)
Lemma revalidate_refs (b : bool) (s : Comp) :
  scrollRefs (revalidate b s) = scrollRefs s.
Proof. destruct b; reflexivity. Qed.

Lemma revalidate_log (b : bool) (s : Comp) : log (revalidate b s) = log s.
Proof. destruct b; reflexivity. Qed.

Lemma initializeTarget_ok (doc : Document) (s : Comp) :
  scrollState_ok s -> scrollState_ok (initializeTarget doc s).
Proof.
  intros H. unfold initializeTarget.
  destruct (getElement doc (targetSelector (props s))) as [t et].
  set (s1 := assign_targetElement t (effects et s)).
  assert (H1 : scrollState_ok s1)
    by (apply (scrollState_ok_ext s);
        [unfold s1, assign_targetElement; now rewrite revalidate_refs
        | exact H]).
  clearbody s1.
  destruct (getElement doc (contentSelector (props s1))) as [c ec].
  set (s2 := assign_contentElement c (effects ec s1)).
  assert (H2 : scrollState_ok s2)
    by (apply (scrollState_ok_ext s1);
        [unfold s2, assign_contentElement; now rewrite revalidate_refs
        | exact H1]).
  clearbody s2.
  destruct (targetElement s2); [destruct (contentElement s2)|].
  - set (s5 := updateScrollInfo _).
    assert (H5 : scrollState_ok s5).
    { apply updateScrollInfo_ok.
      apply (scrollState_ok_ext s2); [|exact H2].
      now rewrite setupResizeObserver_refs, setupScrollListener_refs. }
    clearbody s5.
    apply (scrollState_ok_ext s5); [reflexivity | exact H5].
  - set (s3 := effect _ s2).
    apply (scrollState_ok_ext s2); [reflexivity | exact H2].
  - apply (scrollState_ok_ext s2); [reflexivity | exact H2].
Qed.

(** A step that leaves the Scroll State refs of [s] alone keeps the
    invariant [H] of [s]. *)
Ltac unchanged s H :=
  apply (scrollState_ok_ext s);
  [ first [ reflexivity | apply scrollToPosition_refs
          | apply handleKeyDown_refs | apply cleanup_refs
          | rewrite revalidate_refs; reflexivity ]
  | exact H ].

Lemma step_ok (a : Action) (s : Comp) :
  scrollState_ok s -> scrollState_ok (step a s).
Proof.
  intros H. destruct a; cbn [step].
  - unfold onMounted. destruct (enableKeyboard _); [unchanged s H | exact H].
  - now apply initializeTarget_ok.
  - unfold throttledHandleScroll. destruct (negb _); [|exact H].
    now apply updateScrollInfo_ok.
  - now apply updateScrollInfo_ok.
  - unfold handleScrollbarClick.
    destruct (customScrollbarRef s); [|exact H].
    destruct (customScrollbarThumbRef s); [|exact H].
    destruct (disabled _); [exact H|].
    destruct (Nat.eqb _ _); [exact H|].
    apply (scrollState_ok_ext s); [|exact H].
    rewrite emit_refs. apply scrollToPosition_refs.
  - unfold handleThumbMouseDown. destruct (disabled _); [exact H|].
    unchanged s H.
  - unfold handleThumbTouchStart. destruct (disabled _); [exact H|].
    unchanged s H.
  - unfold handleMouseMove, updateDragPosition.
    destruct (negb _); [exact H|].
    destruct (customScrollbarRef s); [|exact H].
    apply updateScrollInfo_ok. unchanged s H.
  - unfold handleTouchMove, updateDragPosition.
    destruct (negb _); [exact H|].
    destruct (customScrollbarRef s); [|unchanged s H].
    match goal with
    | |- scrollState_ok (effect _ ?u) =>
        apply (scrollState_ok_ext u); [apply effect_refs|]
    end.
    apply updateScrollInfo_ok. unchanged s H.
  - unchanged s H.
  - unchanged s H.
  - unchanged s H.
  - unchanged s H.
  - unchanged s H.
  - now apply updateScrollInfo_ok.
  - unchanged s H.
  - unfold env_scroll. destruct (targetElement s); [unchanged s H | exact H].
  - unchanged s H.
  - unfold env_render. unchanged s H.
  - unchanged s H.
  - unfold env_props. unchanged s H.
Qed.

Lemma reachable_ok (s : Comp) : reachable s -> scrollState_ok s.
Proof.
  induction 1 as [p | a s _ IH].
  - split; [exists 0; split; [reflexivity | lra] | reflexivity].
  - now apply step_ok.
Qed.

(** ** Programmatic scrolling and the published Scroll State *)

Lemma demo_ready_reachable : reachable demo_ready.
Proof.
  unfold demo_ready, run. cbn [fold_left].
  repeat apply reach_step. apply reach_initial.
Qed.

Lemma scrollToPosition_offset (s : Comp) (tg : Element) (m p : Q) :
  targetElement s = Some tg -> maxScroll s = Fin m -> 0 <= m ->
  exists c, targetElement (scrollToPosition (Fin p) s)
            = Some (set_el_scrollLeft (Fin c) tg) /\
            0 <= c <= m /\
            (p <= 0 -> c == 0) /\ (m <= p -> c == m) /\
            (0 <= p <= m -> c == p).
Proof.
  intros Ht Hm H0. unfold scrollToPosition. rewrite Ht, Hm.
  destruct (clamp_fin m p H0) as (c & -> & Hc).
  exists c. split; [reflexivity | exact Hc].
Qed.

(** C5. In every reachable state with a resolved target element,
    [scrollToPosition] writes its (finite) argument clamped to
    [[0, maxScroll]] into the target's scrollLeft, in that very call:
    arguments at or below 0 give 0, arguments at or above maxScroll give
    maxScroll, arguments in between are written unchanged; in particular
    -100 gives 0 and maxScroll + 100 gives maxScroll. [+Infinity] gives
    maxScroll and [-Infinity] gives 0. The call emits nothing and leaves
    the Scroll State refs and the Drag Session flag as they were. *)
Theorem scrollToPosition_clamps (s : Comp) (tg : Element) :
  reachable s -> targetElement s = Some tg ->
  exists m, maxScroll s = Fin m /\ 0 <= m /\
    (forall p, p <= 0 -> offset_is (scrollToPosition (Fin p) s) 0) /\
    (forall p, m <= p -> offset_is (scrollToPosition (Fin p) s) m) /\
    (forall p, 0 <= p <= m -> offset_is (scrollToPosition (Fin p) s) p) /\
    offset_is (scrollToPosition (Fin (-100)) s) 0 /\
    offset_is (scrollToPosition (Fin (m + 100)) s) m /\
    offset_is (scrollToPosition PInf s) m /\
    offset_is (scrollToPosition NInf s) 0 /\
    (forall p, scrollRefs (scrollToPosition p s) = scrollRefs s /\
               log (scrollToPosition p s) = log s /\
               isDragging (scrollToPosition p s) = isDragging s).
Proof.
  intros Hr Ht.
  destruct (reachable_ok s Hr) as [(m & Hm & H0) _].
  exists m. split; [exact Hm|]. split; [exact H0|].
  assert (G : forall p q, (p <= 0 -> q == 0) -> (m <= p -> q == m) ->
                (0 <= p <= m -> q == p) -> (p <= 0 \/ m <= p \/ 0 <= p <= m) ->
                offset_is (scrollToPosition (Fin p) s) q).
  { intros p q A B C D.
    destruct (scrollToPosition_offset s tg m p Ht Hm H0)
      as (c & E & _ & Ec0 & Ecm & Ecp).
    exists (set_el_scrollLeft (Fin c) tg), c.
    split; [exact E|]. split; [reflexivity|].
    destruct D as [D | [D | D]].
    - rewrite (Ec0 D). symmetry. now apply A.
    - rewrite (Ecm D). symmetry. now apply B.
    - rewrite (Ecp D). symmetry. now apply C. }
  repeat split.
  - intros p Hp. apply G; intros; auto; lra.
  - intros p Hp. apply G; intros; auto; lra.
  - intros p Hp. apply G; intros; auto; lra.
  - apply G; intros; auto; lra.
  - apply G; intros; auto; lra.
  - unfold scrollToPosition. rewrite Ht, Hm. cbn [min gtb].
    destruct (max_fin 0 m) as (z & -> & Hz & Hz0 & Hzm).
    eexists _, z. split; [reflexivity|]. split; [reflexivity|].
    destruct Hz as [-> | ->]; lra.
  - unfold scrollToPosition. rewrite Ht, Hm. cbn [min max gtb].
    eexists _, 0. split; [reflexivity|]. split; reflexivity.
  - apply scrollToPosition_refs.
  - unfold scrollToPosition. rewrite Ht. reflexivity.
  - unfold scrollToPosition. rewrite Ht. reflexivity.
Qed.

Lemma demo_ready_target :
  targetElement demo_ready = Some (set_el_listeners [LScroll] demo_target).
Proof. vm_compute. reflexivity. Qed.

Lemma scrollToPosition_clamps_witness :
  reachable demo_ready /\
  targetElement demo_ready = Some (set_el_listeners [LScroll] demo_target) /\
  offset_is (scrollToPosition (Fin (-100)) demo_ready) 0 /\
  offset_is (scrollToPosition (Fin 1100) demo_ready) 1000 /\
  offset_is (scrollToPosition (Fin 250) demo_ready) 250.
Proof.
  split; [exact demo_ready_reachable|]. split; [exact demo_ready_target|].
  destruct (scrollToPosition_clamps demo_ready _ demo_ready_reachable
              demo_ready_target)
    as (m & Hm & _ & Hlo & Hhi & Hin & _).
  assert (E : m = 1000) by (vm_compute in Hm; congruence). subst m.
  split; [apply Hlo; lra|]. split; [apply Hhi; lra | apply Hin; lra].
Defined.

(** C7. In every reachable state, after [updateScrollInfo] has run the
    refs satisfy
    [scrollPercent == (maxScroll > 0 ? scrollLeft / maxScroll * 100 : 0)];
    when both elements are resolved the scroll notification it emits
    carries exactly the three refs; and when maxScroll is 0 the percentage
    is 0 and the thumb's left position is 0, whatever scrollLeft is. *)
Theorem updateScrollInfo_percent_invariant (s : Comp) :
  reachable s ->
  let s' := updateScrollInfo s in
  scrollPercent s' = percent_of (scrollLeft s') (maxScroll s') /\
  (forall tg ct, targetElement s = Some tg -> contentElement s = Some ct ->
     log s' = (log s ++ [Emit (NScroll {| si_scrollLeft := scrollLeft s';
                                          si_maxScroll := maxScroll s';
                                          si_scrollPercent := scrollPercent s' |})])%list) /\
  ((maxScroll s' =n= Fin 0)%num ->
     scrollPercent s' = Fin 0 /\ parseFloat (left (thumbStyle s')) = Fin 0).
Proof.
  intros Hr s'.
  assert (Hok : scrollState_ok s') by (apply updateScrollInfo_ok, reachable_ok, Hr).
  destruct Hok as [(m & Hm & H0) Hp].
  split; [exact Hp|]. split.
  - intros tg ct Ht Hc. subst s'. unfold updateScrollInfo.
    rewrite Ht, Hc. cbv zeta. unfold revalidate.
    destruct (autoShow _), (scrollState_changed _ _ _); reflexivity.
  - intros Hz. rewrite Hm in Hz. simpl in Hz.
    assert (G : gtb (maxScroll s') (Fin 0) = false)
      by (rewrite Hm; apply gtb_fin_false; lra).
    split.
    + rewrite Hp. unfold percent_of. now rewrite G.
    + unfold thumbStyle. cbn [left parseFloat]. now rewrite G.
Qed.

Lemma updateScrollInfo_percent_invariant_witness :
  reachable demo_ready /\
  scrollPercent (updateScrollInfo demo_ready)
  = percent_of (scrollLeft (updateScrollInfo demo_ready))
               (maxScroll (updateScrollInfo demo_ready)).
Proof.
  split; [exact demo_ready_reachable|].
  exact (proj1 (updateScrollInfo_percent_invariant demo_ready
                  demo_ready_reachable)).
Defined.

(** ** The disabled flag *)

(** C9. With [disabled] set, the click handler, the mouse and touch
    drag-start handlers and the keyboard handler return the state they were
    given: the target's offset, every ref, the listeners and the log (so no
    click, dragStart or keydown notification and no preventDefault) are
    unchanged. *)
Theorem disabled_inert (s : Comp) :
  disabled (props s) = true ->
  (forall e, handleScrollbarClick e s = s) /\
  (forall e, handleThumbMouseDown e s = s) /\
  (forall e, handleThumbTouchStart e s = s) /\
  (forall e, handleKeyDown e s = s).
Proof.
  intros Hd. repeat split; intros e.
  - unfold handleScrollbarClick. rewrite Hd.
    destruct (customScrollbarRef s); [|reflexivity].
    destruct (customScrollbarThumbRef s); reflexivity.
  - unfold handleThumbMouseDown. now rewrite Hd.
  - unfold handleThumbTouchStart. now rewrite Hd.
  - unfold handleKeyDown. rewrite Hd.
    destruct (negb _); [reflexivity|].
    destruct (targetElement s); reflexivity.
Qed.

Lemma disabled_inert_witness :
  disabled (props demo_disabled) = true /\
  handleScrollbarClick {| clientX := 200; target := 3%nat |} demo_disabled
  = demo_disabled /\
  handleThumbMouseDown {| clientX := 60; target := 7%nat |} demo_disabled
  = demo_disabled /\
  handleThumbTouchStart {| touch0_clientX := 60 |} demo_disabled
  = demo_disabled /\
  handleKeyDown {| key := "ArrowRight" |} demo_disabled = demo_disabled.
Proof.
  split; [reflexivity|].
  destruct (disabled_inert demo_disabled eq_refl) as (Hc & Hm & Ht & Hk).
  split; [apply Hc|]. split; [apply Hm|]. split; [apply Ht | apply Hk].
Defined.

(** ** Element resolution *)

(** C10. [getElement] reports failure differently by selector kind. A query
    string that matches nothing gives [null] with a warning and an error
    notification, and whenever a query string resolves to [null] (no match,
    or [querySelector] threw) an error notification has been emitted. A
    resolver function that returns nothing gives [null]
    and no effect at all. With a resolver function an error notification is
    emitted exactly when the resolver throws, and the call then gives
    [null]. *)
Theorem getElement_failure_asymmetry (doc : Document) :
  (forall sel, querySelector doc sel = Returns None ->
     getElement doc (SelString sel)
     = (None, [ConsoleWarn; Emit (NError ("Element not found: " ++ sel))])) /\
  (forall sel, fst (getElement doc (SelString sel)) = None ->
     exists err, In (Emit (NError err)) (snd (getElement doc (SelString sel)))) /\
  (forall resolver, resolver tt = Returns None ->
     getElement doc (SelFunction resolver) = (None, [])) /\
  (forall resolver,
     (exists err, In (Emit (NError err))
                     (snd (getElement doc (SelFunction resolver)))) <->
     (exists err, resolver tt = Throws err)) /\
  (forall resolver err, resolver tt = Throws err ->
     getElement doc (SelFunction resolver)
     = (None, [ConsoleError; Emit (NError err)])).
Proof.
  repeat split.
  - intros sel H. unfold getElement. now rewrite H.
  - intros sel. unfold getElement.
    destruct (querySelector doc sel) as [[el|] | e]; cbn; intros H.
    + discriminate.
    + eexists. right. now left.
    + eexists. right. now left.
  - intros resolver H. unfold getElement. now rewrite H.
  - intros (err & Hin). unfold getElement in Hin.
    destruct (resolver tt) as [r | e].
    + destruct Hin.
    + now exists e.
  - intros (err & H). exists err. unfold getElement. rewrite H.
    right. now left.
  - intros resolver err H. unfold getElement. now rewrite H.
Qed.

Lemma getElement_failure_asymmetry_witness :
  querySelector demo_doc "#missing" = Returns None /\
  getElement demo_doc (SelString "#missing")
  = (None, [ConsoleWarn; Emit (NError "Element not found: #missing")]) /\
  getElement demo_doc (SelFunction (fun _ => Returns None)) = (None, []) /\
  getElement demo_doc (SelFunction (fun _ => Throws "boom"))
  = (None, [ConsoleError; Emit (NError "boom")]).
Proof.
  destruct (getElement_failure_asymmetry demo_doc) as (Hs & _ & Hf & _ & Ht).
  split; [reflexivity|].
  split; [exact (Hs "#missing" eq_refl)|].
  split; [exact (Hf (fun _ => Returns None) eq_refl)|].
  exact (Ht (fun _ => Throws "boom") "boom" eq_refl).
Defined.

(** ** Observation signals during a drag *)

Lemma updateScrollInfo_emits (s : Comp) (tg ct : Element) :
  targetElement s = Some tg -> contentElement s = Some ct ->
  exists info,
    log (updateScrollInfo s) = (log s ++ [Emit (NScroll info)])%list /\
    si_scrollLeft info = el_scrollLeft tg.
Proof.
  intros Ht Hc. unfold updateScrollInfo. rewrite Ht, Hc. cbv zeta.
  unfold revalidate. eexists.
  split; [destruct (autoShow _), (scrollState_changed _ _ _); reflexivity
         | reflexivity].
Qed.

Lemma updateScrollInfo_isDragging (s : Comp) :
  isDragging (updateScrollInfo s) = isDragging s.
Proof.
  unfold updateScrollInfo.
  destruct (targetElement s); [|reflexivity].
  destruct (contentElement s); [|reflexivity].
  cbv zeta. unfold revalidate.
  destruct (autoShow _), (scrollState_changed _ _ _); reflexivity.
Qed.

Lemma updateScrollInfo_targetElement (s : Comp) :
  targetElement (updateScrollInfo s) = targetElement s.
Proof.
  unfold updateScrollInfo.
  destruct (targetElement s) eqn:Ht; [|exact Ht].
  destruct (contentElement s); [|exact Ht].
  cbv zeta. unfold revalidate.
  destruct (autoShow _), (scrollState_changed _ _ _); exact Ht.
Qed.

(** C8, as the code has it. While a drag is active the throttled scroll
    handler does nothing: no recomputation, no notification. The
    resize-observer callback is not gated: with both elements resolved it
    recomputes the Scroll State from the target and emits a scroll
    notification, also during a drag (which it leaves active). *)
Theorem drag_gates_scroll_handler_only (s : Comp) :
  isDragging s = true ->
  throttledHandleScroll s = s /\
  resizeObserverCallback s = updateScrollInfo s /\
  (forall tg ct, targetElement s = Some tg -> contentElement s = Some ct ->
     scrollLeft (resizeObserverCallback s) = el_scrollLeft tg /\
     isDragging (resizeObserverCallback s) = true /\
     exists info,
       log (resizeObserverCallback s) = (log s ++ [Emit (NScroll info)])%list /\
       si_scrollLeft info = el_scrollLeft tg).
Proof.
  intros Hd. split; [|split].
  - unfold throttledHandleScroll. now rewrite Hd.
  - reflexivity.
  - intros tg ct Ht Hc. unfold resizeObserverCallback. split; [|split].
    + pose proof (updateScrollInfo_fresh s tg ct Ht Hc) as E.
      cbv zeta in E. unfold scrollRefs in E. now injection E.
    + now rewrite updateScrollInfo_isDragging.
    + now apply (updateScrollInfo_emits s tg ct).
Qed.

Lemma drag_gates_scroll_handler_only_witness :
  isDragging demo_dragging = true /\
  throttledHandleScroll demo_dragging = demo_dragging /\
  scrollLeft (resizeObserverCallback demo_dragging) = Fin 120.
Proof.
  split; [reflexivity|].
  destruct (drag_gates_scroll_handler_only demo_dragging eq_refl)
    as (Hs & _ & Hr).
  split; [exact Hs|].
  exact (proj1 (Hr (set_el_scrollLeft (Fin 120)
                      (set_el_listeners [LScroll] demo_target))
                   demo_content eq_refl eq_refl)).
Defined.

(** C8 as stated fails: during a drag the resize-observer callback
    recomputes the Scroll State (scrollLeft goes from 0 to 120) and emits a
    scroll notification. *)
Lemma resize_recomputes_during_drag :
  isDragging demo_dragging = true /\
  scrollLeft demo_dragging = Fin 0 /\
  scrollLeft (resizeObserverCallback demo_dragging) = Fin 120 /\
  log (resizeObserverCallback demo_dragging)
  = (log demo_dragging
     ++ [Emit (NScroll {| si_scrollLeft := Fin 120;
                          si_maxScroll := Fin 1000;
                          si_scrollPercent := Fin (120 / 1000 * 100) |})])%list /\
  ~ (forall s, isDragging s = true ->
       throttledHandleScroll s = s /\ resizeObserverCallback s = s).
Proof.
  split; [reflexivity|]. split; [reflexivity|].
  split; [vm_compute; reflexivity|].
  split; [vm_compute; reflexivity|].
  intros C. destruct (C demo_dragging eq_refl) as [_ E].
  apply (f_equal scrollLeft) in E. vm_compute in E. discriminate E.
Qed.

(** ** Drag sessions and teardown *)

Lemma addEventListener_present (l : Listener) (ls : list Listener) :
  In l ls -> addEventListener l ls = ls.
Proof.
  intros H. unfold addEventListener.
  destruct (in_dec Listener_eq_dec l ls); [reflexivity | contradiction].
Qed.

(** C2, as the code has it. In a state that is dragging and not disabled,
    a second mouse-down or touch-start on the thumb starts the session
    anew: [isDragging] stays true (there is still one session), the start
    pointer X becomes the new pointer's X and the start scrollLeft the
    current scrollLeft, the default is prevented and a dragStart
    notification is emitted again. The move and up (end) listeners that are
    already on the document are not added a second time; the target
    element and the Scroll State are untouched. *)
Theorem second_drag_start_restarts_session (s : Comp) :
  isDragging s = true -> disabled (props s) = false ->
  (forall e, let s' := handleThumbMouseDown e s in
     isDragging s' = true /\
     dragStartX s' = Fin (clientX e) /\
     dragStartScrollLeft s' = scrollLeft s /\
     log s' = (log s ++ [PreventDefault; Emit (NDragStart (OfMouse e))])%list /\
     (In LMouseMove (documentListeners s) ->
      In LMouseUp (documentListeners s) ->
      documentListeners s' = documentListeners s) /\
     targetElement s' = targetElement s /\ scrollRefs s' = scrollRefs s) /\
  (forall e, let s' := handleThumbTouchStart e s in
     isDragging s' = true /\
     dragStartX s' = Fin (touch0_clientX e) /\
     dragStartScrollLeft s' = scrollLeft s /\
     log s' = (log s ++ [PreventDefault; Emit (NDragStart (OfTouch e))])%list /\
     (In LTouchMove (documentListeners s) ->
      In LTouchEnd (documentListeners s) ->
      documentListeners s' = documentListeners s) /\
     targetElement s' = targetElement s /\ scrollRefs s' = scrollRefs s).
Proof.
  intros _ Hd. split; intros e s'; subst s'.
  - unfold handleThumbMouseDown. rewrite Hd.
    repeat split; try reflexivity.
    + cbn. now rewrite <- app_assoc.
    + intros Hm Hu. cbn.
      rewrite (addEventListener_present LMouseMove _ Hm).
      now rewrite (addEventListener_present LMouseUp _ Hu).
  - unfold handleThumbTouchStart. rewrite Hd.
    repeat split; try reflexivity.
    + cbn. now rewrite <- app_assoc.
    + intros Hm Hu. cbn.
      rewrite (addEventListener_present LTouchMove _ Hm).
      now rewrite (addEventListener_present LTouchEnd _ Hu).
Qed.

Lemma second_drag_start_restarts_session_witness :
  isDragging demo_dragged = true /\ disabled (props demo_dragged) = false /\
  dragStartX (handleThumbMouseDown {| clientX := 90; target := 7%nat |}
                                   demo_dragged) = Fin 90 /\
  documentListeners (handleThumbMouseDown {| clientX := 90; target := 7%nat |}
                                          demo_dragged)
  = documentListeners demo_dragged.
Proof.
  split; [reflexivity|]. split; [reflexivity|].
  destruct (second_drag_start_restarts_session demo_dragged eq_refl eq_refl)
    as [Hm _].
  destruct (Hm {| clientX := 90; target := 7%nat |})
    as (_ & Hx & _ & _ & Hl & _).
  split; [exact Hx|].
  apply Hl; vm_compute; tauto.
Defined.

(** C2 as stated fails: the second press is not a no-op. It overwrites
    the start pointer X (60 becomes 90) and the start scrollLeft (0
    becomes 150) and emits a second dragStart. *)
Lemma second_press_overwrites_session :
  let e2 := {| clientX := 90; target := 7%nat |} in
  isDragging demo_dragged = true /\
  dragStartX demo_dragged = Fin 60 /\
  dragStartX (handleThumbMouseDown e2 demo_dragged) = Fin 90 /\
  dragStartScrollLeft demo_dragged = Fin 0 /\
  (dragStartScrollLeft (handleThumbMouseDown e2 demo_dragged) =n= Fin 150)%num /\
  log (handleThumbMouseDown e2 demo_dragged)
  = (log demo_dragged ++ [PreventDefault; Emit (NDragStart (OfMouse e2))])%list /\
  ~ (forall s e, isDragging s = true -> handleThumbMouseDown e s = s).
Proof.
  cbv zeta.
  split; [reflexivity|]. split; [reflexivity|]. split; [reflexivity|].
  split; [reflexivity|]. split; [vm_compute; reflexivity|].
  split; [vm_compute; reflexivity|].
  intros C.
  pose proof (C demo_dragged {| clientX := 90; target := 7%nat |} eq_refl) as E.
  apply (f_equal dragStartX) in E. vm_compute in E. discriminate E.
Qed.

Lemma removed_absent (ls : list Listener) (l : Listener) :
  In l [LKeydown; LMouseMove; LMouseUp; LTouchMove; LTouchEnd] ->
  ~ In l (without_component_listeners ls).
Proof.
  unfold without_component_listeners, removeEventListener.
  intros Hl Hin.
  repeat match type of Hin with
         | In _ (remove _ _ _) =>
             apply in_remove in Hin; destruct Hin as [Hin ?]
         end.
  cbn in Hl. intuition congruence.
Qed.

Lemma removeEventListener_absent (l : Listener) (ls : list Listener) :
  ~ In l ls -> removeEventListener l ls = ls.
Proof. intros H. unfold removeEventListener. now apply notin_remove. Qed.

Lemma without_component_listeners_idem (ls : list Listener) :
  without_component_listeners (without_component_listeners ls)
  = without_component_listeners ls.
Proof.
  set (r := without_component_listeners ls).
  assert (H : forall l,
             In l [LKeydown; LMouseMove; LMouseUp; LTouchMove; LTouchEnd] ->
             ~ In l r) by (intros l; apply removed_absent).
  clearbody r. unfold without_component_listeners.
  rewrite (removeEventListener_absent LKeydown r) by (apply H; cbn; tauto).
  rewrite (removeEventListener_absent LMouseMove r) by (apply H; cbn; tauto).
  rewrite (removeEventListener_absent LMouseUp r) by (apply H; cbn; tauto).
  rewrite (removeEventListener_absent LTouchMove r) by (apply H; cbn; tauto).
  apply removeEventListener_absent. apply H; cbn; tauto.
Qed.

Lemma cleanup_unfold (s : Comp) :
  cleanup s =
  mkComp (props s) (scrollLeft s) (maxScroll s) (scrollPercent s)
    (showScrollbar s) (isVisible s) (customScrollbarRef s)
    (customScrollbarThumbRef s) (isDragging s) (dragStartX s)
    (dragStartScrollLeft s)
    (option_map (fun tg => set_el_listeners
                   (removeEventListener LScroll (el_listeners tg)) tg)
                (targetElement s))
    (contentElement s)
    (option_map (fun _ => []) (resizeObserver s))
    (without_component_listeners (documentListeners s)) (log s)
    (thumbStyleValue s).
Proof.
  destruct s as [p sl ms sp sh vi sb th dr dx dsl [tg|] ct [ro|] dl lg tv];
    reflexivity.
Qed.

(** C3, as the code has it. [cleanup] takes the scroll listener off the
    target, disconnects the resize observer and takes the keyboard and drag
    listeners off the document, whichever of them were attached, and it is
    idempotent; it does not touch the Drag Session: [isDragging], the
    start pointer X and the start scrollLeft are what they were. *)
Theorem cleanup_idempotent_keeps_drag_session (s : Comp) :
  cleanup (cleanup s) = cleanup s /\
  isDragging (cleanup s) = isDragging s /\
  dragStartX (cleanup s) = dragStartX s /\
  dragStartScrollLeft (cleanup s) = dragStartScrollLeft s /\
  log (cleanup s) = log s /\
  (forall l, In l [LKeydown; LMouseMove; LMouseUp; LTouchMove; LTouchEnd] ->
             ~ In l (documentListeners (cleanup s))) /\
  (forall tg, targetElement (cleanup s) = Some tg ->
              ~ In LScroll (el_listeners tg)) /\
  (forall o, resizeObserver (cleanup s) = Some o -> o = []).
Proof.
  split.
  - rewrite (cleanup_unfold (cleanup s)). rewrite (cleanup_unfold s).
    cbn [props scrollLeft maxScroll scrollPercent showScrollbar isVisible
         customScrollbarRef customScrollbarThumbRef isDragging dragStartX
         dragStartScrollLeft targetElement contentElement resizeObserver
         documentListeners log].
    rewrite without_component_listeners_idem.
    f_equal.
    + destruct (targetElement s) as [tg|]; [|reflexivity].
      cbn. unfold set_el_listeners. cbn. f_equal. f_equal.
      apply removeEventListener_absent. apply remove_In.
    + destruct (resizeObserver s); reflexivity.
  - rewrite (cleanup_unfold s). cbn.
    repeat split; try reflexivity.
    + intros l. apply removed_absent.
    + intros tg. destruct (targetElement s) as [t|]; cbn; [|discriminate].
      intros E. injection E as <-. cbn. apply remove_In.
    + intros o. destruct (resizeObserver s); cbn; [|discriminate].
      intros E. now injection E.
Qed.

Lemma cleanup_idempotent_keeps_drag_session_witness :
  cleanup (cleanup demo_dragged) = cleanup demo_dragged /\
  isDragging (cleanup demo_dragged) = isDragging demo_dragged /\
  ~ In LMouseMove (documentListeners (cleanup demo_dragged)).
Proof.
  destruct (cleanup_idempotent_keeps_drag_session demo_dragged)
    as (Hi & Hd & _ & _ & _ & Hl & _).
  split; [exact Hi|]. split; [exact Hd|].
  apply Hl. right. now left.
Defined.

(** C3 as stated fails: unmounting in the middle of a drag leaves
    [isDragging] true. *)
Lemma cleanup_leaves_isDragging_set :
  isDragging demo_dragged = true /\
  isDragging (onUnmounted demo_dragged) = true /\
  documentListeners (onUnmounted demo_dragged) = [] /\
  ~ (forall s, isDragging (cleanup s) = false).
Proof.
  split; [reflexivity|]. split; [vm_compute; reflexivity|].
  split; [vm_compute; reflexivity|].
  intros C. specialize (C demo_dragged). vm_compute in C. discriminate C.
Qed.

(** ** Thumb geometry *)

Lemma or_else_zero (x : Q) :
  exists z, or_else (Fin x) (Fin 0) = Fin z /\ z == x.
Proof.
  unfold or_else. destruct (Qcompare_spec x 0) as [E | _ | _].
  - exists 0. split; [reflexivity | now symmetry].
  - exists x. split; reflexivity.
  - exists x. split; reflexivity.
Qed.

Lemma thumbStyle_left_eq (s : Comp) :
  left (thumbStyle s)
  = Px (if gtb (maxScroll s) (Fin 0)
        then mul (div (scrollLeft s) (maxScroll s))
                 (sub (scrollbarWidth_of s) (thumbWidth_of s))
        else Fin 0).
Proof. reflexivity. Qed.

Lemma scrollbarWidth_fin (s : Comp) :
  exists W, scrollbarWidth_of s = Fin W /\ W == trackWidth s.
Proof.
  unfold scrollbarWidth_of, trackWidth.
  destruct (customScrollbarRef s) as [sb|].
  - apply or_else_zero.
  - exists 0. split; reflexivity.
Qed.

Lemma thumbStyle_width_with_scrollLeft (x : num) (s : Comp) :
  width (thumbStyle (with_scrollLeft x s)) = width (thumbStyle s).
Proof. reflexivity. Qed.

(** The left position of a thumb of finite width [w]. *)
Lemma thumbStyle_left (s : Comp) (m sl w : Q) :
  maxScroll s = Fin m -> scrollLeft s = Fin sl ->
  width (thumbStyle s) = Px (Fin w) ->
  exists tl, left (thumbStyle s) = Px (Fin tl) /\
             (0 < m -> tl == sl / m * (trackWidth s - w)) /\
             (m <= 0 -> tl = 0).
Proof.
  intros Hm Hsl Hw. rewrite thumbStyle_left_eq.
  unfold thumbWidth_of. rewrite Hw, Hm, Hsl. cbn [parseFloat].
  destruct (scrollbarWidth_fin s) as (W & -> & HW).
  destruct (gtb (Fin m) (Fin 0)) eqn:G.
  - apply gtb_fin in G. rewrite div_fin by lra.
    cbn [sub opp add mul]. eexists. split; [reflexivity|]. split.
    + intros _. rewrite HW. reflexivity.
    + intros Hle. lra.
  - apply gtb_fin_false in G. exists 0. split; [reflexivity|]. split.
    + intros Hlt. lra.
    + reflexivity.
Qed.

Lemma thumbStyle_eta (st : Style) :
  st = {| width := width st; left := left st |}.
Proof. now destruct st. Qed.

Lemma thumbWidth_of_eq (s : Comp) :
  thumbWidth_of s
  = max (minThumbWidth (props s))
        (mul (div (targetWidth_of s) (contentWidth_of s)) (scrollbarWidth_of s)).
Proof. reflexivity. Qed.

Lemma or_else_one (x : Q) :
  exists z, or_else (Fin x) (Fin 1) = Fin z /\ ~ z == 0 /\
            (x == 0 -> z = 1) /\ (~ x == 0 -> z = x).
Proof.
  unfold or_else. destruct (Qcompare_spec x 0) as [E | L | G].
  - exists 1. split; [reflexivity|]. split; [lra|]. split; [reflexivity|].
    intros N. contradiction.
  - exists x. split; [reflexivity|]. split; [lra|]. split; [|reflexivity].
    intros Z. lra.
  - exists x. split; [reflexivity|]. split; [lra|]. split; [|reflexivity].
    intros Z. lra.
Qed.

(** X20. The thumb fits the track when the floor [minThumbWidth] does and
    the viewport is no wider than the content: its width is then finite,
    at least [minThumbWidth] and at most the track's width. *)
Lemma thumbWidth_fits (s : Comp) (tg ct : Element) (mt : Q) :
  targetElement s = Some tg -> contentElement s = Some ct ->
  minThumbWidth (props s) = Fin mt ->
  0 <= trackWidth s -> mt <= trackWidth s ->
  0 <= clientWidth tg <= scrollWidth ct ->
  exists w, width (thumbStyle s) = Px (Fin w) /\ mt <= w <= trackWidth s.
Proof.
  intros Ht Hc Hmt HW0 HmtW Hcw.
  assert (E : width (thumbStyle s) = Px (thumbWidth_of s)) by reflexivity.
  rewrite E, thumbWidth_of_eq, Hmt.
  unfold targetWidth_of, contentWidth_of. rewrite Ht, Hc.
  destruct (or_else_zero (clientWidth tg)) as (a & -> & Ha).
  destruct (or_else_one (scrollWidth ct)) as (b & -> & Hb0 & Hb1 & Hb2).
  destruct (scrollbarWidth_fin s) as (W & -> & HW).
  rewrite div_fin by exact Hb0. cbn [mul].
  assert (Hab : 0 <= a <= b /\ 0 < b).
  { destruct (Qeq_dec (scrollWidth ct) 0) as [Z | NZ].
    - rewrite (Hb1 Z). lra.
    - rewrite (Hb2 NZ). lra. }
  destruct Hab as [Hab Hbpos].
  assert (R0 : 0 <= a / b) by (apply Qle_shift_div_l; lra).
  assert (R1 : a / b <= 1) by (apply Qle_shift_div_r; lra).
  assert (P : a / b * W <= 1 * W)
    by (apply Qmult_le_compat_r; [exact R1 | lra]).
  destruct (max_fin mt (a / b * W)) as (w & -> & Hw & Hlo & _).
  exists w. split; [reflexivity|].
  destruct Hw as [-> | ->]; lra.
Qed.

(** C4, as the code has it. Let the thumb's width [w] be finite and no
    larger than the track's width (the floor [minThumbWidth] and the ratio
    of the widths can make it larger). Then over scrollLeft in
    [[0, maxScroll]] the thumb's width stays [w], its left position is
    non-negative and non-decreasing in scrollLeft, and left + width never
    exceeds the track's width. *)
Theorem thumb_monotone_within_track (s : Comp) (m w s1 s2 : Q) :
  maxScroll s = Fin m ->
  width (thumbStyle s) = Px (Fin w) ->
  w <= trackWidth s ->
  0 <= s1 -> s1 <= s2 -> s2 <= m ->
  exists l1 l2,
    thumbStyle (with_scrollLeft (Fin s1) s)
    = {| width := Px (Fin w); left := Px (Fin l1) |} /\
    thumbStyle (with_scrollLeft (Fin s2) s)
    = {| width := Px (Fin w); left := Px (Fin l2) |} /\
    0 <= l1 /\ l1 <= l2 /\
    l1 + w <= trackWidth s /\ l2 + w <= trackWidth s.
Proof.
  intros Hm Hw Hfit H1 H12 H2.
  destruct (thumbStyle_left (with_scrollLeft (Fin s1) s) m s1 w Hm eq_refl Hw)
    as (l1 & E1 & P1 & Z1).
  destruct (thumbStyle_left (with_scrollLeft (Fin s2) s) m s2 w Hm eq_refl Hw)
    as (l2 & E2 & P2 & Z2).
  change (trackWidth (with_scrollLeft (Fin s1) s)) with (trackWidth s) in P1.
  change (trackWidth (with_scrollLeft (Fin s2) s)) with (trackWidth s) in P2.
  exists l1, l2.
  split.
  { rewrite (thumbStyle_eta (thumbStyle _)). rewrite E1.
    now rewrite thumbStyle_width_with_scrollLeft, Hw. }
  split.
  { rewrite (thumbStyle_eta (thumbStyle _)). rewrite E2.
    now rewrite thumbStyle_width_with_scrollLeft, Hw. }
  destruct (Qlt_le_dec 0 m) as [Hpos | Hnp].
  - specialize (P1 Hpos). specialize (P2 Hpos).
    set (g := trackWidth s - w) in *.
    assert (Hg : 0 <= g) by (unfold g; lra).
    assert (R1 : 0 <= s1 / m) by (apply Qle_shift_div_l; lra).
    assert (R12 : s1 / m <= s2 / m).
    { apply Qle_shift_div_l; [lra|].
      setoid_replace (s1 / m * m) with s1 by (field; lra). exact H12. }
    assert (R2 : s2 / m <= 1) by (apply Qle_shift_div_r; lra).
    assert (M1 : 0 <= s1 / m * g) by (apply Qmult_le_0_compat; assumption).
    assert (M12 : s1 / m * g <= s2 / m * g)
      by (apply Qmult_le_compat_r; assumption).
    assert (M2 : s2 / m * g <= 1 * g)
      by (apply Qmult_le_compat_r; assumption).
    rewrite P1, P2. unfold g in *. repeat split; lra.
  - rewrite (Z1 Hnp), (Z2 Hnp). repeat split; lra.
Qed.

Lemma thumb_monotone_within_track_witness :
  maxScroll demo_ready = Fin 1000 /\
  width (thumbStyle demo_ready) = Px (Fin (500 / 1500 * 300)) /\
  500 / 1500 * 300 <= trackWidth demo_ready /\
  exists l1 l2,
    thumbStyle (with_scrollLeft (Fin 250) demo_ready)
    = {| width := Px (Fin (500 / 1500 * 300)); left := Px (Fin l1) |} /\
    thumbStyle (with_scrollLeft (Fin 1000) demo_ready)
    = {| width := Px (Fin (500 / 1500 * 300)); left := Px (Fin l2) |} /\
    0 <= l1 /\ l1 <= l2 /\
    l1 + 500 / 1500 * 300 <= trackWidth demo_ready /\
    l2 + 500 / 1500 * 300 <= trackWidth demo_ready.
Proof.
  assert (Hm : maxScroll demo_ready = Fin 1000) by reflexivity.
  assert (Hw : width (thumbStyle demo_ready) = Px (Fin (500 / 1500 * 300)))
    by reflexivity.
  assert (Hfit : 500 / 1500 * 300 <= trackWidth demo_ready)
    by (vm_compute; discriminate).
  split; [exact Hm|]. split; [exact Hw|]. split; [exact Hfit|].
  apply (thumb_monotone_within_track demo_ready 1000 _ 250 1000 Hm Hw Hfit);
    vm_compute; discriminate.
Defined.

(** C4 as stated fails: with non-negative inputs (viewport 500, content
    1500, track 20, minThumbWidth 30, maxScroll 1000) the thumb is 30 wide,
    its left position falls from 0 at scrollLeft 0 to -10 at scrollLeft
    1000, and at scrollLeft 0 left + width = 30 exceeds the track. *)
Lemma thumb_leaves_narrow_track :
  let at0 := thumbStyle (with_scrollLeft (Fin 0) demo_narrow) in
  let at1000 := thumbStyle (with_scrollLeft (Fin 1000) demo_narrow) in
  (maxScroll demo_narrow = Fin 1000 /\
   minThumbWidth (props demo_narrow) = Fin 30 /\
   trackWidth demo_narrow = 20 /\
   width at0 = Px (Fin 30) /\
   (parseFloat (left at0) =n= Fin 0)%num /\
   (parseFloat (left at1000) =n= Fin (-10))%num /\
   ~ le (parseFloat (left at0)) (parseFloat (left at1000)) /\
   ~ le (add (parseFloat (left at0)) (parseFloat (width at0)))
        (Fin (trackWidth demo_narrow))) /\
  ~ (forall (s : Comp) (m s1 s2 : Q),
       maxScroll s = Fin m ->
       le (Fin 0) (minThumbWidth (props s)) -> 0 <= trackWidth s ->
       (forall tg, targetElement s = Some tg -> 0 <= clientWidth tg) ->
       (forall ct, contentElement s = Some ct -> 0 <= scrollWidth ct) ->
       0 <= s1 -> s1 <= s2 -> s2 <= m ->
       le (parseFloat (left (thumbStyle (with_scrollLeft (Fin s1) s))))
          (parseFloat (left (thumbStyle (with_scrollLeft (Fin s2) s)))) /\
       le (add (parseFloat (left (thumbStyle (with_scrollLeft (Fin s1) s))))
               (thumbWidth_of s))
          (Fin (trackWidth s))).
Proof.
  cbv zeta. split.
  - split; [reflexivity|]. split; [reflexivity|]. split; [reflexivity|].
    split; [reflexivity|].
    split; [vm_compute; reflexivity|]. split; [vm_compute; reflexivity|].
    split; vm_compute; discriminate.
  - intros C.
    destruct (C demo_narrow 1000 0 1000) as [Hmono _].
    + reflexivity.
    + vm_compute. reflexivity.
    + vm_compute. discriminate.
    + intros tg E. vm_compute in E. injection E as <-. vm_compute. discriminate.
    + intros ct E. vm_compute in E. injection E as <-. vm_compute. discriminate.
    + vm_compute. discriminate.
    + vm_compute. discriminate.
    + vm_compute. discriminate.
    + vm_compute in Hmono. discriminate Hmono.
Qed.

(** ** From pointer coordinates back to scroll offsets *)






Lemma handleThumbMouseDown_enabled (e : MouseEvent) (s : Comp) :
  disabled (props s) = false ->
  handleThumbMouseDown e s
  = emit (NDragStart (OfMouse e))
      (effect PreventDefault
         (document_addEventListener LMouseUp
            (document_addEventListener LMouseMove
               (startDragging (Fin (clientX e)) s)))).
Proof. intros H. unfold handleThumbMouseDown. now rewrite H. Qed.

Lemma handleThumbTouchStart_enabled (e : TouchEvent) (s : Comp) :
  disabled (props s) = false ->
  handleThumbTouchStart e s
  = emit (NDragStart (OfTouch e))
      (effect PreventDefault
         (document_addEventListener LTouchEnd
            (document_addEventListener LTouchMove
               (startDragging (Fin (touch0_clientX e)) s)))).
Proof. intros H. unfold handleThumbTouchStart. now rewrite H. Qed.



(** ** A track as wide as the thumb *)

(** C1 on the code. With trackWidth = thumbWidth = 30 and maxScroll = 1000,
    [scrollbarWidth - thumbWidth] is 0 and both handlers divide by it. A
    drag from x = 50 to x = 55 started at offset 200 writes 1000 and a
    pointer that has not moved writes [NaN]; a click right of the thumb's
    centre writes 1000, a click on the centre writes [NaN], a click left of
    it writes 0. *)
Theorem degenerate_track_divides_by_zero :
  let pressed := handleThumbMouseDown {| clientX := 50; target := 7%nat |}
                                      demo_thin in
  (sub (Fin (trackWidth demo_thin)) (thumbWidth_of demo_thin) =n= Fin 0)%num /\
  maxScroll demo_thin = Fin 1000 /\
  dragStartScrollLeft pressed = Fin 200 /\
  div (sub (Fin 55) (dragStartX pressed))
      (sub (Fin (trackWidth pressed)) (thumbWidth_of pressed)) = PInf /\
  written_offset (handleMouseMove {| clientX := 55; target := 7%nat |} pressed)
  = Some (Fin 1000) /\
  written_offset (handleMouseMove {| clientX := 50; target := 7%nat |} pressed)
  = Some NaN /\
  written_offset (handleScrollbarClick {| clientX := 60; target := 3%nat |}
                                       demo_thin) = Some (Fin 1000) /\
  written_offset (handleScrollbarClick {| clientX := 55; target := 3%nat |}
                                       demo_thin) = Some NaN /\
  written_offset (handleScrollbarClick {| clientX := 45; target := 3%nat |}
                                       demo_thin) = Some (Fin 0).
Proof.
  cbv zeta. repeat split; vm_compute; reflexivity.
Qed.

(** ** Keyboard steps *)

Lemma scrollToPosition_clamped (s : Comp) (tg : Element) (m p : Q) :
  targetElement s = Some tg -> maxScroll s = Fin m -> 0 <= m ->
  exists c,
    scrollToPosition (Fin p) s
    = set_targetElement s (Some (set_el_scrollLeft (Fin c) tg)) /\
    clamped_to m p c.
Proof.
  intros Ht Hm H0. unfold scrollToPosition. rewrite Ht, Hm.
  destruct (clamp_fin m p H0) as (c & -> & Hc).
  exists c. split; [reflexivity | exact Hc].
Qed.

(** The four keys the switch handles. *)
Lemma handleKeyDown_enabled (e : KeyboardEvent) (s : Comp) (tg : Element) :
  enableKeyboard (props s) = true -> targetElement s = Some tg ->
  disabled (props s) = false ->
  forall handled : Comp -> Comp,
    (key e = "ArrowLeft" /\
     handled = scrollToPosition (sub (scrollLeft s) (scrollStep (props s)))) \/
    (key e = "ArrowRight" /\
     handled = scrollToPosition (add (scrollLeft s) (scrollStep (props s)))) \/
    (key e = "Home" /\ handled = scrollToPosition (Fin 0)) \/
    (key e = "End" /\ handled = scrollToEnd) ->
    handleKeyDown e s
    = emit (NKeydown e) (effect PreventDefault (handled s)).
Proof.
  intros Hk Ht Hd handled H. unfold handleKeyDown. rewrite Hk, Ht, Hd.
  cbn [negb].
  destruct H as [[K ->] | [[K ->] | [[K ->] | [K ->]]]]; rewrite K;
    reflexivity.
Qed.

(** X1. ArrowRight and ArrowLeft step from the published [scrollLeft] by
    [scrollStep], clamped to [[0, maxScroll]]: the clamped offset is
    written to the target, the default is prevented and one keydown
    notification is emitted; the Scroll State refs are not recomputed. *)
Theorem arrow_keys_step_clamped
  (s : Comp) (tg : Element) (sl st : Q) (e : KeyboardEvent) :
  reachable s ->
  enableKeyboard (props s) = true -> disabled (props s) = false ->
  targetElement s = Some tg ->
  scrollLeft s = Fin sl -> scrollStep (props s) = Fin st ->
  exists m, maxScroll s = Fin m /\
    (key e = "ArrowRight" ->
       exists c, clamped_to m (sl + st) c /\
         handleKeyDown e s
         = emit (NKeydown e)
             (effect PreventDefault
                (set_targetElement s (Some (set_el_scrollLeft (Fin c) tg))))) /\
    (key e = "ArrowLeft" ->
       exists c, clamped_to m (sl - st) c /\
         handleKeyDown e s
         = emit (NKeydown e)
             (effect PreventDefault
                (set_targetElement s (Some (set_el_scrollLeft (Fin c) tg))))).
Proof.
  intros Hr Hk Hd Ht Hsl Hst.
  destruct (reachable_ok s Hr) as [(m & Hm & H0) _].
  exists m. split; [exact Hm|]. split; intros K.
  - destruct (scrollToPosition_clamped s tg m (sl + st) Ht Hm H0) as (c & E & Hc).
    exists c. split; [exact Hc|].
    rewrite (handleKeyDown_enabled e s tg Hk Ht Hd
               (scrollToPosition (add (scrollLeft s) (scrollStep (props s)))))
      by (right; left; split; [exact K | reflexivity]).
    rewrite Hsl, Hst. cbn [add]. now rewrite E.
  - destruct (scrollToPosition_clamped s tg m (sl - st) Ht Hm H0) as (c & E & Hc).
    exists c. split; [exact Hc|].
    rewrite (handleKeyDown_enabled e s tg Hk Ht Hd
               (scrollToPosition (sub (scrollLeft s) (scrollStep (props s)))))
      by (left; split; [exact K | reflexivity]).
    rewrite Hsl, Hst. cbn [sub opp add]. unfold Qminus in E. now rewrite E.
Qed.

Lemma demo_at250_reachable : reachable demo_at250.
Proof.
  change (reachable (step AScroll (step (AEnvScroll (Fin 250)) demo_ready))).
  do 2 apply reach_step. exact demo_ready_reachable.
Qed.

Lemma demo_at250_target :
  targetElement demo_at250
  = Some (set_el_scrollLeft (Fin 250) (set_el_listeners [LScroll] demo_target)).
Proof. vm_compute. reflexivity. Qed.

Lemma arrow_keys_step_clamped_witness :
  reachable demo_at250 /\
  scrollLeft demo_at250 = Fin 250 /\
  scrollStep (props demo_at250) = Fin 50 /\
  exists c, c == 300 /\
    targetElement (handleKeyDown {| key := "ArrowRight" |} demo_at250)
    = Some (set_el_scrollLeft (Fin c)
              (set_el_scrollLeft (Fin 250)
                 (set_el_listeners [LScroll] demo_target))).
Proof.
  split; [exact demo_at250_reachable|]. split; [reflexivity|].
  split; [reflexivity|].
  destruct (arrow_keys_step_clamped demo_at250 _ 250 50
              {| key := "ArrowRight" |} demo_at250_reachable
              eq_refl eq_refl demo_at250_target eq_refl eq_refl)
    as (m & Hm & Hright & _).
  assert (E : m = 1000) by (vm_compute in Hm; congruence). subst m.
  destruct (Hright eq_refl) as (c & (_ & _ & _ & Hin) & ->).
  exists c. split; [|reflexivity].
  apply Hin. split; vm_compute; discriminate.
Defined.

(** X2. Home writes 0 and End writes maxScroll to the target, each with
    the default prevented and one keydown notification; the exposed
    [scrollToEnd] writes maxScroll and emits nothing. *)
Theorem home_end_keys_and_scrollToEnd
  (s : Comp) (tg : Element) (e : KeyboardEvent) :
  reachable s ->
  enableKeyboard (props s) = true -> disabled (props s) = false ->
  targetElement s = Some tg ->
  exists m, maxScroll s = Fin m /\ 0 <= m /\
    (key e = "Home" ->
       exists c, c == 0 /\
         handleKeyDown e s
         = emit (NKeydown e)
             (effect PreventDefault
                (set_targetElement s (Some (set_el_scrollLeft (Fin c) tg))))) /\
    (key e = "End" ->
       exists c, c == m /\
         handleKeyDown e s
         = emit (NKeydown e)
             (effect PreventDefault
                (set_targetElement s (Some (set_el_scrollLeft (Fin c) tg))))) /\
    (exists c, c == m /\
       scrollToEnd s
       = set_targetElement s (Some (set_el_scrollLeft (Fin c) tg))).
Proof.
  intros Hr Hk Hd Ht.
  destruct (reachable_ok s Hr) as [(m & Hm & H0) _].
  exists m. split; [exact Hm|]. split; [exact H0|].
  assert (Hend : exists c, c == m /\
            scrollToEnd s
            = set_targetElement s (Some (set_el_scrollLeft (Fin c) tg))).
  { unfold scrollToEnd. rewrite Hm.
    destruct (scrollToPosition_clamped s tg m m Ht Hm H0)
      as (c & E & _ & _ & Hc & _).
    exists c. split; [apply Hc; lra | exact E]. }
  split; [|split; [|exact Hend]].
  - intros K.
    destruct (scrollToPosition_clamped s tg m 0 Ht Hm H0)
      as (c & E & _ & Hc & _).
    exists c. split; [apply Hc; lra|].
    rewrite (handleKeyDown_enabled e s tg Hk Ht Hd (scrollToPosition (Fin 0)))
      by (right; right; left; split; [exact K | reflexivity]).
    now rewrite E.
  - intros K. destruct Hend as (c & Hc & E).
    exists c. split; [exact Hc|].
    rewrite (handleKeyDown_enabled e s tg Hk Ht Hd scrollToEnd)
      by (right; right; right; split; [exact K | reflexivity]).
    now rewrite E.
Qed.

Lemma home_end_keys_and_scrollToEnd_witness :
  reachable demo_at250 /\
  (exists c, c == 0 /\
     targetElement (handleKeyDown {| key := "Home" |} demo_at250)
     = Some (set_el_scrollLeft (Fin c)
               (set_el_scrollLeft (Fin 250)
                  (set_el_listeners [LScroll] demo_target)))) /\
  (exists c, c == 1000 /\
     targetElement (handleKeyDown {| key := "End" |} demo_at250)
     = Some (set_el_scrollLeft (Fin c)
               (set_el_scrollLeft (Fin 250)
                  (set_el_listeners [LScroll] demo_target)))).
Proof.
  split; [exact demo_at250_reachable|].
  split.
  - destruct (home_end_keys_and_scrollToEnd demo_at250 _ {| key := "Home" |}
                demo_at250_reachable eq_refl eq_refl demo_at250_target)
      as (m & _ & _ & Hhome & _).
    destruct (Hhome eq_refl) as (c & Hc & ->).
    exists c. split; [exact Hc | reflexivity].
  - destruct (home_end_keys_and_scrollToEnd demo_at250 _ {| key := "End" |}
                demo_at250_reachable eq_refl eq_refl demo_at250_target)
      as (m & Hm & _ & _ & Hend & _).
    assert (E : m = 1000) by (vm_compute in Hm; congruence). subst m.
    destruct (Hend eq_refl) as (c & Hc & ->).
    exists c. split; [exact Hc | reflexivity].
Defined.

(** X3. [handleKeyDown] does nothing at all (no write, no preventDefault,
    no notification) when keyboard support is off, when the target is
    unresolved, when the component is disabled, or when the key is none of
    ArrowLeft, ArrowRight, Home, End. *)
Theorem handleKeyDown_ignores (e : KeyboardEvent) (s : Comp) :
  enableKeyboard (props s) = false \/ targetElement s = None \/
  disabled (props s) = true \/
  (key e <> "ArrowLeft" /\ key e <> "ArrowRight" /\
   key e <> "Home" /\ key e <> "End") ->
  handleKeyDown e s = s.
Proof.
  intros H. unfold handleKeyDown.
  destruct (enableKeyboard (props s)); cbn [negb]; [|reflexivity].
  destruct (targetElement s); [|reflexivity].
  destruct (disabled (props s)); [reflexivity|].
  destruct H as [H | [H | [H | (K1 & K2 & K3 & K4)]]]; try discriminate H.
  apply String.eqb_neq in K1, K2, K3, K4.
  now rewrite K1, K2, K3, K4.
Qed.

Lemma handleKeyDown_ignores_witness :
  handleKeyDown {| key := "PageDown" |} demo_at250 = demo_at250.
Proof.
  apply handleKeyDown_ignores. right. right. right.
  repeat split; discriminate.
Defined.

(** A handled key writes a position computed from the props and the
    Scroll State refs alone. *)
Lemma handleKeyDown_shape (e : KeyboardEvent) (s : Comp) :
  handleKeyDown e s = s \/
  exists p tg,
    targetElement s = Some tg /\
    handleKeyDown e s
    = emit (NKeydown e) (effect PreventDefault (scrollToPosition p s)) /\
    forall s' tg',
      props s' = props s -> scrollLeft s' = scrollLeft s ->
      maxScroll s' = maxScroll s -> targetElement s' = Some tg' ->
      handleKeyDown e s'
      = emit (NKeydown e) (effect PreventDefault (scrollToPosition p s')).
Proof.
  unfold handleKeyDown at 1 2.
  destruct (enableKeyboard (props s)) eqn:Hk; cbn [negb]; [|now left].
  destruct (targetElement s) as [tg|] eqn:Ht; [|now left].
  destruct (disabled (props s)) eqn:Hd; [now left|].
  destruct (String.eqb (key e) "ArrowLeft") eqn:K1;
    [|destruct (String.eqb (key e) "ArrowRight") eqn:K2;
      [|destruct (String.eqb (key e) "Home") eqn:K3;
        [|destruct (String.eqb (key e) "End") eqn:K4; [|now left]]]];
    right; eexists _, tg; (split; [reflexivity|]);
    (split; [reflexivity|]);
    intros s' tg' Hp Hsl Hms Ht'; unfold handleKeyDown, scrollToEnd;
    rewrite Hp, Hk, Hd, Ht', Hsl, ?Hms, K1, ?K2, ?K3, ?K4; reflexivity.
Qed.

(** X4. Key steps are taken from the published [scrollLeft], not from the
    target: the same key handled a second time before the Scroll State is
    recomputed writes the same offset again. *)
Theorem key_repeat_without_recomputation (e : KeyboardEvent) (s : Comp) :
  targetElement (handleKeyDown e (handleKeyDown e s))
  = targetElement (handleKeyDown e s) /\
  scrollRefs (handleKeyDown e (handleKeyDown e s)) = scrollRefs s.
Proof.
  split; [|now rewrite !handleKeyDown_refs].
  destruct (handleKeyDown_shape e s) as [E | (p & tg & Ht & E & Hnext)].
  - now rewrite !E.
  - rewrite E.
    set (c := max (Fin 0) (min (maxScroll s) p)).
    assert (E1 : scrollToPosition p s
                 = set_targetElement s (Some (set_el_scrollLeft c tg)))
      by (unfold scrollToPosition; now rewrite Ht).
    rewrite E1.
    rewrite (Hnext _ (set_el_scrollLeft c tg));
      try reflexivity.
Qed.

(** ** The end of a drag *)

Lemma remove_app_singleton_absent (l : Listener) (ls : list Listener) :
  ~ In l ls -> removeEventListener l (ls ++ [l])%list = ls.
Proof.
  intros H. unfold removeEventListener. rewrite remove_app.
  rewrite (notin_remove Listener_eq_dec ls l H). cbn.
  destruct (Listener_eq_dec l l) as [_ | N]; [apply app_nil_r | contradiction].
Qed.

Lemma addEventListener_absent (l : Listener) (ls : list Listener) :
  ~ In l ls -> addEventListener l ls = (ls ++ [l])%list.
Proof.
  intros H. unfold addEventListener.
  destruct (in_dec Listener_eq_dec l ls); [contradiction | reflexivity].
Qed.

(** Adding two distinct listeners and removing them again. *)
Lemma add_remove_pair (a b : Listener) (ls : list Listener) :
  a <> b -> ~ In a ls -> ~ In b ls ->
  removeEventListener b
    (removeEventListener a (addEventListener b (addEventListener a ls)))
  = ls.
Proof.
  intros Hab Ha Hb.
  rewrite (addEventListener_absent a ls Ha).
  assert (Hb' : ~ In b (ls ++ [a])%list).
  { rewrite in_app_iff. intros [H | [H | []]]; [now apply Hb | now apply Hab]. }
  rewrite (addEventListener_absent b _ Hb').
  assert (E : removeEventListener a ((ls ++ [a]) ++ [b])%list = (ls ++ [b])%list).
  { unfold removeEventListener. rewrite remove_app.
    fold (removeEventListener a (ls ++ [a])%list).
    rewrite (remove_app_singleton_absent a ls Ha). cbn.
    destruct (Listener_eq_dec a b) as [N | _]; [contradiction | reflexivity]. }
  rewrite E. apply remove_app_singleton_absent. exact Hb.
Qed.

(** X5. A mouse-up or touch-end always ends the drag, whether or not a
    move was ever seen and whether or not a drag was active: [isDragging]
    is false afterwards, the move and up (end) listeners are off the
    document, exactly one dragEnd notification is emitted, the target and
    the Scroll State are untouched, and a move event that still arrives
    afterwards does nothing. *)
Theorem release_ends_drag (s : Comp) :
  (let s' := handleMouseUp s in
   isDragging s' = false /\
   ~ In LMouseMove (documentListeners s') /\
   ~ In LMouseUp (documentListeners s') /\
   log s' = (log s ++ [Emit (NDragEnd ByMouse)])%list /\
   targetElement s' = targetElement s /\ scrollRefs s' = scrollRefs s /\
   forall e, handleMouseMove e s' = s') /\
  (let s' := handleTouchEnd s in
   isDragging s' = false /\
   ~ In LTouchMove (documentListeners s') /\
   ~ In LTouchEnd (documentListeners s') /\
   log s' = (log s ++ [Emit (NDragEnd ByTouch)])%list /\
   targetElement s' = targetElement s /\ scrollRefs s' = scrollRefs s /\
   forall e, handleTouchMove e s' = s').
Proof.
  split; cbv zeta.
  - repeat split.
    + cbn. intros H. apply in_remove in H. destruct H as [H _].
      now apply remove_In in H.
    + cbn. apply remove_In.
  - repeat split.
    + cbn. intros H. apply in_remove in H. destruct H as [H _].
      now apply remove_In in H.
    + cbn. apply remove_In.
Qed.

(** X6. A press on the thumb followed at once by the release is a clean
    round trip: the document's listeners are what they were before the
    press, no drag is active, the target and the Scroll State are
    untouched, and the log has gained preventDefault, dragStart, dragEnd,
    in that order. By mouse and by touch. *)
Theorem press_release_round_trip (s : Comp) :
  disabled (props s) = false ->
  (forall e,
     ~ In LMouseMove (documentListeners s) ->
     ~ In LMouseUp (documentListeners s) ->
     let s' := handleMouseUp (handleThumbMouseDown e s) in
     documentListeners s' = documentListeners s /\
     isDragging s' = false /\
     targetElement s' = targetElement s /\ scrollRefs s' = scrollRefs s /\
     log s' = (log s ++ [PreventDefault; Emit (NDragStart (OfMouse e));
                         Emit (NDragEnd ByMouse)])%list) /\
  (forall e,
     ~ In LTouchMove (documentListeners s) ->
     ~ In LTouchEnd (documentListeners s) ->
     let s' := handleTouchEnd (handleThumbTouchStart e s) in
     documentListeners s' = documentListeners s /\
     isDragging s' = false /\
     targetElement s' = targetElement s /\ scrollRefs s' = scrollRefs s /\
     log s' = (log s ++ [PreventDefault; Emit (NDragStart (OfTouch e));
                         Emit (NDragEnd ByTouch)])%list).
Proof.
  intros Hd. split; intros e Ha Hb s'; subst s'.
  - rewrite (handleThumbMouseDown_enabled e s Hd).
    repeat split.
    + cbn. apply add_remove_pair; [discriminate | exact Ha | exact Hb].
    + cbn. now rewrite <- !app_assoc.
  - rewrite (handleThumbTouchStart_enabled e s Hd).
    repeat split.
    + cbn. apply add_remove_pair; [discriminate | exact Ha | exact Hb].
    + cbn. now rewrite <- !app_assoc.
Qed.

Lemma press_release_round_trip_witness :
  disabled (props demo_ready) = false /\
  documentListeners
    (handleMouseUp (handleThumbMouseDown {| clientX := 60; target := 7%nat |}
                                         demo_ready))
  = documentListeners demo_ready.
Proof.
  split; [reflexivity|].
  destruct (press_release_round_trip demo_ready eq_refl) as [Hm _].
  refine (proj1 (Hm {| clientX := 60; target := 7%nat |} _ _)).
  - vm_compute. intros [H | []]. discriminate H.
  - vm_compute. intros [H | []]. discriminate H.
Defined.

(** ** Drag moves and clicks in general position *)

(** What [updateScrollInfo] leaves alone. *)
Lemma updateScrollInfo_frame (s : Comp) :
  let s' := updateScrollInfo s in
  props s' = props s /\ customScrollbarRef s' = customScrollbarRef s /\
  customScrollbarThumbRef s' = customScrollbarThumbRef s /\
  isDragging s' = isDragging s /\ dragStartX s' = dragStartX s /\
  dragStartScrollLeft s' = dragStartScrollLeft s /\
  targetElement s' = targetElement s /\ contentElement s' = contentElement s /\
  documentListeners s' = documentListeners s /\
  resizeObserver s' = resizeObserver s /\ isVisible s' = isVisible s.
Proof.
  cbv zeta. unfold updateScrollInfo.
  destruct (targetElement s) eqn:Ht; [|now rewrite Ht].
  destruct (contentElement s) eqn:Hc; [|now rewrite Ht, Hc].
  cbv zeta. unfold revalidate.
  destruct (autoShow _), (scrollState_changed _ _ _); cbn; now rewrite Ht, Hc.
Qed.

Lemma updateDragPosition_clamped
  (s : Comp) (sb : ScrollbarEl) (tg : Element) (m w x x0 a : Q) :
  customScrollbarRef s = Some sb -> targetElement s = Some tg ->
  maxScroll s = Fin m -> 0 <= m ->
  width (thumbStyleValue s) = Px (Fin w) ->
  dragStartX s = Fin x0 -> dragStartScrollLeft s = Fin a ->
  ~ offsetWidth sb - w == 0 ->
  exists c,
    clamped_to m (a + (x - x0) / (offsetWidth sb - w) * m) c /\
    updateDragPosition (Fin x) s
    = updateScrollInfo
        (set_targetElement s (Some (set_el_scrollLeft (Fin c) tg))).
Proof.
  intros Hsb Ht Hm H0 Hw Hx0 Ha Hden.
  unfold updateDragPosition. rewrite Hsb, Hw, Hm, Hx0, Ha.
  cbn [parseFloat sub opp add].
  rewrite div_fin by (unfold Qminus in Hden; exact Hden).
  cbn [mul add].
  destruct (scrollToPosition_clamped s tg m
              (a + (x + - x0) / (offsetWidth sb + - w) * m) Ht Hm H0)
    as (c & E & Hc).
  exists c. split; [exact Hc | now rewrite E].
Qed.

(** X7. A move during a drag, [w] being the thumb width the computed
    [thumbStyle] holds (its cached value, which a change of the track's
    width alone does not refresh) and the track's current width differing
    from it: the offset start + deltaX / (trackWidth - w) * maxScroll,
    clamped to [[0, maxScroll]], is written to the target and the Scroll
    State is recomputed in the same call, so the published [scrollLeft] is
    the offset just written and one scroll notification carrying it is
    emitted; the drag stays active. A touch move does the same and then
    prevents the default. *)
Theorem drag_move_publishes
  (s : Comp) (sb : ScrollbarEl) (tg ct : Element) (m w x x0 a : Q) :
  isDragging s = true ->
  customScrollbarRef s = Some sb ->
  targetElement s = Some tg -> contentElement s = Some ct ->
  maxScroll s = Fin m -> 0 <= m ->
  width (thumbStyleValue s) = Px (Fin w) ->
  dragStartX s = Fin x0 -> dragStartScrollLeft s = Fin a ->
  ~ offsetWidth sb - w == 0 ->
  exists c,
    clamped_to m (a + (x - x0) / (offsetWidth sb - w) * m) c /\
    (forall t, let s' := handleMouseMove {| clientX := x; target := t |} s in
       targetElement s' = Some (set_el_scrollLeft (Fin c) tg) /\
       scrollLeft s' = Fin c /\ isDragging s' = true /\
       exists info,
         log s' = (log s ++ [Emit (NScroll info)])%list /\
         si_scrollLeft info = Fin c) /\
    (forall t,
       handleTouchMove {| touch0_clientX := x |} s
       = effect PreventDefault
           (handleMouseMove {| clientX := x; target := t |} s)).
Proof.
  intros Hd Hsb Ht Hc Hm H0 Hw Hx0 Ha Hden.
  destruct (updateDragPosition_clamped s sb tg m w x x0 a
              Hsb Ht Hm H0 Hw Hx0 Ha Hden) as (c & Hcl & E).
  exists c. split; [exact Hcl|]. split.
  - intros t s'. subst s'. unfold handleMouseMove. rewrite Hd.
    cbn [negb clientX]. rewrite E.
    set (u := set_targetElement s (Some (set_el_scrollLeft (Fin c) tg))).
    assert (Htu : targetElement u = Some (set_el_scrollLeft (Fin c) tg))
      by reflexivity.
    assert (Hcu : contentElement u = Some ct) by exact Hc.
    destruct (updateScrollInfo_frame u) as (_ & _ & _ & Hdr & _ & _ & Htg & _).
    cbv zeta in Hdr, Htg.
    split; [now rewrite Htg|]. split.
    + pose proof (updateScrollInfo_fresh u _ ct Htu Hcu) as F.
      cbv zeta in F. unfold scrollRefs in F. now injection F.
    + split; [rewrite Hdr; exact Hd|].
      destruct (updateScrollInfo_emits u _ ct Htu Hcu) as (info & Hl & Hi).
      exists info. split; [exact Hl | exact Hi].
  - intros t. unfold handleTouchMove, handleMouseMove. now rewrite Hd.
Qed.

Lemma demo_dragging_target :
  targetElement demo_dragging
  = Some (set_el_scrollLeft (Fin 120) (set_el_listeners [LScroll] demo_target)).
Proof. vm_compute. reflexivity. Qed.

Lemma drag_move_publishes_witness :
  isDragging demo_dragging = true /\
  ~ offsetWidth demo_track - 500 / 1500 * 300 == 0 /\
  exists c, c == 200 /\
    targetElement
      (handleMouseMove {| clientX := 100; target := 7%nat |} demo_dragging)
    = Some (set_el_scrollLeft (Fin c)
              (set_el_scrollLeft (Fin 120)
                 (set_el_listeners [LScroll] demo_target))) /\
    scrollLeft
      (handleMouseMove {| clientX := 100; target := 7%nat |} demo_dragging)
    = Fin c.
Proof.
  assert (Hden : ~ offsetWidth demo_track - 500 / 1500 * 300 == 0)
    by (vm_compute; discriminate).
  split; [reflexivity|]. split; [exact Hden|].
  destruct (drag_move_publishes demo_dragging demo_track _ demo_content
              1000 (500 / 1500 * 300) 100 60 0
              eq_refl eq_refl demo_dragging_target eq_refl eq_refl
              (fun H => Qle_bool_imp_le 0 1000 eq_refl H)
              eq_refl eq_refl eq_refl Hden)
    as (c & (_ & _ & _ & Hin) & Hmove & _).
  exists c. split.
  - rewrite Hin; [vm_compute; reflexivity | split; vm_compute; discriminate].
  - destruct (Hmove 7%nat) as (Ht & Hs & _). split; [exact Ht | exact Hs].
Defined.

(** The thumb's width does not depend on the target's scroll offset. *)
Lemma thumbWidth_of_ext (s s' : Comp) (tg : Element) (c : num) :
  props s' = props s -> customScrollbarRef s' = customScrollbarRef s ->
  contentElement s' = contentElement s ->
  targetElement s = Some tg ->
  targetElement s' = Some (set_el_scrollLeft c tg) ->
  thumbWidth_of s' = thumbWidth_of s.
Proof.
  intros Hp Hsb Hc Ht Ht'. rewrite !thumbWidth_of_eq.
  unfold targetWidth_of, contentWidth_of, scrollbarWidth_of.
  now rewrite Hp, Hsb, Hc, Ht, Ht'.
Qed.

(** After a recomputation the computed holds what it held before or
    what the getter gives now. *)
Lemma updateScrollInfo_cache (s : Comp) :
  thumbStyleValue (updateScrollInfo s) = thumbStyleValue s \/
  thumbStyleValue (updateScrollInfo s) = thumbStyle (updateScrollInfo s).
Proof.
  unfold updateScrollInfo.
  destruct (targetElement s); [|now left].
  destruct (contentElement s); [|now left].
  cbv zeta. unfold revalidate.
  destruct (autoShow _), (scrollState_changed _ _ _);
    ((now left) || (now right)).
Qed.

Lemma px_eta (p : px) : p = Px (parseFloat p).
Proof. now destruct p. Qed.

(** A drag move from a state that differs only in the target's offset
    and in what has been published or logged. *)
Lemma updateDragPosition_ext
  (s s' : Comp) (sb : ScrollbarEl) (tg ct : Element) (c x : num) :
  props s' = props s ->
  customScrollbarRef s = Some sb -> customScrollbarRef s' = Some sb ->
  contentElement s = Some ct -> contentElement s' = Some ct ->
  targetElement s = Some tg ->
  targetElement s' = Some (set_el_scrollLeft c tg) ->
  dragStartX s' = dragStartX s ->
  dragStartScrollLeft s' = dragStartScrollLeft s ->
  maxScroll s' = maxScroll s ->
  width (thumbStyleValue s') = width (thumbStyleValue s) ->
  targetElement (updateDragPosition x s')
  = targetElement (updateDragPosition x s) /\
  scrollRefs (updateDragPosition x s') = scrollRefs (updateDragPosition x s).
Proof.
  intros Hp Hsb Hsb' Hc Hc' Ht Ht' Hx Ha Hm Hw.
  unfold updateDragPosition. rewrite Hsb, Hsb', Hw, Hx, Ha, Hm.
  set (P := add (dragStartScrollLeft s) _).
  set (k := max (Fin 0) (min (maxScroll s) P)).
  assert (E : scrollToPosition P s
              = set_targetElement s (Some (set_el_scrollLeft k tg)))
    by (unfold scrollToPosition; now rewrite Ht).
  assert (E' : scrollToPosition P s'
               = set_targetElement s' (Some (set_el_scrollLeft k tg)))
    by (unfold scrollToPosition; now rewrite Ht', Hm).
  rewrite E, E'.
  set (u := set_targetElement s (Some (set_el_scrollLeft k tg))).
  set (u' := set_targetElement s' (Some (set_el_scrollLeft k tg))).
  assert (Htu : targetElement u = Some (set_el_scrollLeft k tg)) by reflexivity.
  assert (Htu' : targetElement u' = Some (set_el_scrollLeft k tg)) by reflexivity.
  assert (Hcu : contentElement u = Some ct) by exact Hc.
  assert (Hcu' : contentElement u' = Some ct) by exact Hc'.
  split.
  - now rewrite !updateScrollInfo_targetElement.
  - rewrite (updateScrollInfo_fresh u' _ ct Htu' Hcu').
    now rewrite (updateScrollInfo_fresh u _ ct Htu Hcu).
Qed.

(** X8. Drag moves do not accumulate while the published maxScroll and
    the thumb width the computed holds are current (equal to what the
    elements give now): the offset written and the Scroll State published
    by a move then depend on the drag's start and the pointer's position
    only, not on the moves handled before it. *)
Theorem drag_moves_are_absolute
  (s : Comp) (sb : ScrollbarEl) (tg ct : Element) (e1 e2 : MouseEvent) :
  isDragging s = true -> customScrollbarRef s = Some sb ->
  targetElement s = Some tg -> contentElement s = Some ct ->
  maxScroll s
  = max (Fin 0) (sub (Fin (scrollWidth ct)) (Fin (clientWidth tg))) ->
  width (thumbStyleValue s) = width (thumbStyle s) ->
  targetElement (handleMouseMove e2 (handleMouseMove e1 s))
  = targetElement (handleMouseMove e2 s) /\
  scrollRefs (handleMouseMove e2 (handleMouseMove e1 s))
  = scrollRefs (handleMouseMove e2 s).
Proof.
  intros Hd Hsb Ht Hc Hm Hcur.
  set (s1 := handleMouseMove e1 s).
  assert (E1 : s1 = updateScrollInfo
                      (scrollToPosition
                         (add (dragStartScrollLeft s)
                            (mul (div (sub (Fin (clientX e1)) (dragStartX s))
                                      (sub (Fin (offsetWidth sb))
                                           (parseFloat (width (thumbStyleValue s)))))
                                 (maxScroll s))) s)).
  { unfold s1, handleMouseMove, updateDragPosition. now rewrite Hd, Hsb. }
  set (P := add (dragStartScrollLeft s) _) in E1.
  set (k := max (Fin 0) (min (maxScroll s) P)).
  assert (E : scrollToPosition P s
              = set_targetElement s (Some (set_el_scrollLeft k tg)))
    by (unfold scrollToPosition; now rewrite Ht).
  rewrite E in E1.
  set (u := set_targetElement s (Some (set_el_scrollLeft k tg))) in E1.
  assert (Htu : targetElement u = Some (set_el_scrollLeft k tg)) by reflexivity.
  assert (Hcu : contentElement u = Some ct) by exact Hc.
  destruct (updateScrollInfo_frame u)
    as (Fp & Fsb & _ & Fd & Fx & Fa & Ft & Fc & _).
  cbv zeta in Fp, Fsb, Fd, Fx, Fa, Ft, Fc. rewrite <- E1 in *.
  assert (Fm : maxScroll s1 = maxScroll s).
  { pose proof (updateScrollInfo_fresh u _ ct Htu Hcu) as F.
    cbv zeta in F. rewrite <- E1 in F. unfold scrollRefs in F.
    injection F as _ F _. rewrite F, Hm. reflexivity. }
  assert (Hd1 : isDragging s1 = true) by (rewrite Fd; exact Hd).
  assert (Fw : width (thumbStyleValue s1) = width (thumbStyleValue s)).
  { destruct (updateScrollInfo_cache u) as [C | C]; rewrite <- E1 in C;
      rewrite C; [reflexivity|].
    rewrite Hcur, (px_eta (width (thumbStyle s1))), (px_eta (width (thumbStyle s))).
    f_equal. apply (thumbWidth_of_ext s s1 tg k).
    - rewrite Fp. reflexivity.
    - rewrite Fsb. reflexivity.
    - rewrite Fc. reflexivity.
    - exact Ht.
    - rewrite Ft. exact Htu. }
  clearbody s1. unfold handleMouseMove. rewrite Hd1, Hd. cbn [negb].
  apply (updateDragPosition_ext s s1 sb tg ct k); [| | | | | | | | | | exact Fw].
  - rewrite Fp. reflexivity.
  - exact Hsb.
  - rewrite Fsb. exact Hsb.
  - exact Hc.
  - rewrite Fc. exact Hcu.
  - exact Ht.
  - rewrite Ft. exact Htu.
  - rewrite Fx. reflexivity.
  - rewrite Fa. reflexivity.
  - exact Fm.
Qed.

Lemma drag_moves_are_absolute_witness :
  isDragging demo_dragging = true /\
  width (thumbStyleValue demo_dragging) = width (thumbStyle demo_dragging) /\
  targetElement
    (handleMouseMove {| clientX := 100; target := 7%nat |}
       (handleMouseMove {| clientX := 80; target := 7%nat |} demo_dragging))
  = targetElement
      (handleMouseMove {| clientX := 100; target := 7%nat |} demo_dragging).
Proof.
  assert (Hcur : width (thumbStyleValue demo_dragging)
                 = width (thumbStyle demo_dragging))
    by (vm_compute; reflexivity).
  split; [reflexivity|]. split; [exact Hcur|].
  exact (proj1 (drag_moves_are_absolute demo_dragging demo_track _ demo_content
                  {| clientX := 80; target := 7%nat |}
                  {| clientX := 100; target := 7%nat |}
                  eq_refl eq_refl demo_dragging_target eq_refl eq_refl
                  Hcur)).
Defined.

(** X9. A click on the track (not on the thumb), [w] being the thumb
    width the computed [thumbStyle] holds (its cached value) and the
    track's current width differing from it, writes
    (clickX - w / 2) / (trackWidth - w) * maxScroll, clamped to
    [[0, maxScroll]], and emits exactly one click notification; unlike a
    drag move it does not recompute the Scroll State and does not touch
    the Drag Session. A click whose target is the thumb itself changes
    nothing. *)
Theorem click_jumps_within_range
  (s : Comp) (sb : ScrollbarEl) (th : nat) (tg : Element) (m w : Q) :
  customScrollbarRef s = Some sb -> customScrollbarThumbRef s = Some th ->
  targetElement s = Some tg -> disabled (props s) = false ->
  maxScroll s = Fin m -> 0 <= m ->
  width (thumbStyleValue s) = Px (Fin w) ->
  ~ offsetWidth sb - w == 0 ->
  (forall e, target e <> th ->
     exists c,
       clamped_to m
         ((clientX e - rectLeft sb - w / 2) / (offsetWidth sb - w) * m) c /\
       handleScrollbarClick e s
       = emit (NClick e)
           (set_targetElement s (Some (set_el_scrollLeft (Fin c) tg)))) /\
  (forall e, target e = th -> handleScrollbarClick e s = s).
Proof.
  intros Hsb Hth Ht Hd Hm H0 Hw Hden. split; intros e He.
  - unfold handleScrollbarClick. rewrite Hsb, Hth, Hd.
    apply Nat.eqb_neq in He. rewrite He, Hw, Hm.
    cbn [parseFloat]. rewrite (div_fin w 2) by (intros E; discriminate E).
    cbn [sub opp add]. rewrite div_fin by (unfold Qminus in Hden; exact Hden).
    cbn [mul].
    destruct (scrollToPosition_clamped s tg m
                ((clientX e + - rectLeft sb + - (w / 2))
                 / (offsetWidth sb + - w) * m) Ht Hm H0) as (c & E & Hc).
    exists c. split; [exact Hc | now rewrite E].
  - unfold handleScrollbarClick. rewrite Hsb, Hth, Hd.
    apply Nat.eqb_eq in He. now rewrite He.
Qed.

Lemma click_jumps_within_range_witness :
  disabled (props demo_ready) = false /\
  ~ offsetWidth demo_track - 500 / 1500 * 300 == 0 /\
  (exists c, c == 1000 /\
     handleScrollbarClick {| clientX := 330; target := 3%nat |} demo_ready
     = emit (NClick {| clientX := 330; target := 3%nat |})
         (set_targetElement demo_ready
            (Some (set_el_scrollLeft (Fin c)
                     (set_el_listeners [LScroll] demo_target))))) /\
  handleScrollbarClick {| clientX := 330; target := 7%nat |} demo_ready
  = demo_ready.
Proof.
  assert (Hden : ~ offsetWidth demo_track - 500 / 1500 * 300 == 0)
    by (vm_compute; discriminate).
  split; [reflexivity|]. split; [exact Hden|].
  destruct (click_jumps_within_range demo_ready demo_track 7%nat _
              1000 (500 / 1500 * 300)
              eq_refl eq_refl demo_ready_target eq_refl eq_refl
              (fun H => Qle_bool_imp_le 0 1000 eq_refl H) eq_refl Hden)
    as [Htrack Hthumb].
  split.
  - destruct (Htrack {| clientX := 330; target := 3%nat |})
      as (c & (_ & _ & Hhi & _) & E); [discriminate|].
    exists c. split; [|exact E].
    apply Hhi. vm_compute. discriminate.
  - apply Hthumb. reflexivity.
Defined.

(** ** Initialisation *)

(** X10. [getElement] yields an element only for a query string or a
    resolver function, only the element that [querySelector] or the
    resolver returned, and then without any warning or error; any other
    kind of selector yields [null] silently. *)
Theorem getElement_success (doc : Document) (selector : ElementSelector) :
  (forall el, fst (getElement doc selector) = Some el ->
     snd (getElement doc selector) = [] /\
     ((exists sel, selector = SelString sel /\
                   querySelector doc sel = Returns (Some el)) \/
      (exists resolver, selector = SelFunction resolver /\
                        resolver tt = Returns (Some el)))) /\
  (selector = SelOther -> getElement doc selector = (None, [])).
Proof.
  split.
  - intros el. unfold getElement. destruct selector as [sel | resolver |].
    + destruct (querySelector doc sel) as [[x|] | err] eqn:Q; cbn;
        intros H; try discriminate H.
      injection H as ->. split; [reflexivity|]. left. now exists sel.
    + destruct (resolver tt) as [[x|] | err] eqn:R; cbn;
        intros H; try discriminate H.
      injection H as ->. split; [reflexivity|]. right. now exists resolver.
    + cbn. discriminate.
  - now intros ->.
Qed.

Lemma getElement_success_witness :
  fst (getElement demo_doc (SelString "#viewport")) = Some demo_target /\
  snd (getElement demo_doc (SelString "#viewport")) = [].
Proof.
  split; [reflexivity|].
  exact (proj1 (proj1 (getElement_success demo_doc (SelString "#viewport"))
                  demo_target eq_refl)).
Defined.

Lemma initializeTarget_unfold (doc : Document) (s : Comp) :
  let gt := getElement doc (targetSelector (props s)) in
  let gc := getElement doc (contentSelector (props s)) in
  let s2 := assign_contentElement (fst gc)
              (effects (snd gc)
                 (assign_targetElement (fst gt) (effects (snd gt) s))) in
  initializeTarget doc s
  = match fst gt, fst gc with
    | Some _, Some _ =>
        emit NReady
          (set_isVisible
             (updateScrollInfo (setupResizeObserver (setupScrollListener s2)))
             true)
    | _, _ =>
        emit (NError "Target or content element not found")
             (effect ConsoleError s2)
    end.
Proof.
  cbv zeta. unfold initializeTarget.
  destruct (getElement doc (targetSelector (props s))) as [t et].
  cbn [fst snd].
  assert (Hp : props (assign_targetElement t (effects et s)) = props s)
    by (unfold assign_targetElement, revalidate;
        destruct (element_changed _ _); reflexivity).
  rewrite Hp.
  destruct (getElement doc (contentSelector (props s))) as [c ec].
  cbn [fst snd].
  set (s1 := assign_targetElement t (effects et s)).
  assert (Ht : targetElement (assign_contentElement c (effects ec s1)) = t)
    by (unfold assign_contentElement, s1, assign_targetElement, revalidate;
        do 2 destruct (element_changed _ _); reflexivity).
  assert (Hc : contentElement (assign_contentElement c (effects ec s1)) = c)
    by (unfold assign_contentElement, revalidate;
        destruct (element_changed _ _); reflexivity).
  rewrite Ht, Hc. destruct t, c; reflexivity.
Qed.

(** What the two assignments of [initializeTarget] leave alone. *)
Lemma assign_elements_frame
  (t c : option Element) (et ec : list Effect) (s : Comp) :
  let s2 := assign_contentElement c
              (effects ec (assign_targetElement t (effects et s))) in
  targetElement s2 = t /\ contentElement s2 = c /\
  resizeObserver s2 = resizeObserver s /\
  documentListeners s2 = documentListeners s /\
  isVisible s2 = isVisible s /\ showScrollbar s2 = showScrollbar s /\
  scrollRefs s2 = scrollRefs s /\
  log s2 = (log s ++ et ++ ec)%list.
Proof.
  cbv zeta. unfold assign_contentElement, assign_targetElement, revalidate.
  do 2 destruct (element_changed _ _); cbn;
    rewrite <- ?app_assoc; repeat split; reflexivity.
Qed.

(** X11. When the target or the content element does not resolve,
    [initializeTarget] attaches nothing and shows nothing: no scroll
    listener, no resize observer, [isVisible] and the Scroll State as
    before, no ready notification. It logs the effects of the two
    resolutions (both are attempted) followed by a console error and the
    error notification "Target or content element not found"; the two
    element refs are overwritten with what was resolved. *)
Theorem initializeTarget_failure (doc : Document) (s : Comp) :
  fst (getElement doc (targetSelector (props s))) = None \/
  fst (getElement doc (contentSelector (props s))) = None ->
  let s' := initializeTarget doc s in
  let gt := getElement doc (targetSelector (props s)) in
  let gc := getElement doc (contentSelector (props s)) in
  targetElement s' = fst gt /\ contentElement s' = fst gc /\
  resizeObserver s' = resizeObserver s /\
  documentListeners s' = documentListeners s /\
  isVisible s' = isVisible s /\ showScrollbar s' = showScrollbar s /\
  scrollRefs s' = scrollRefs s /\
  log s' = (log s ++ snd gt ++ snd gc
            ++ [ConsoleError;
                Emit (NError "Target or content element not found")])%list /\
  ~ In (Emit NReady)
       (snd gt ++ snd gc
        ++ [ConsoleError;
            Emit (NError "Target or content element not found")])%list.
Proof.
  intros H. cbv zeta. rewrite initializeTarget_unfold. cbv zeta.
  assert (Hnr : forall sel, ~ In (Emit NReady) (snd (getElement doc sel))).
  { intros sel. unfold getElement. destruct sel as [q | r |]; cbn.
    - destruct (querySelector doc q) as [[x|] | err]; cbn;
        intuition discriminate.
    - destruct (r tt) as [[x|] | err]; cbn; intuition discriminate.
    - tauto. }
  pose proof (Hnr (targetSelector (props s))) as Hnt.
  pose proof (Hnr (contentSelector (props s))) as Hnc.
  set (gt := getElement doc (targetSelector (props s))) in *.
  set (gc := getElement doc (contentSelector (props s))) in *.
  destruct (assign_elements_frame (fst gt) (fst gc) (snd gt) (snd gc) s)
    as (A1 & A2 & A3 & A4 & A5 & A6 & A7 & A8).
  cbv zeta in A1, A2, A3, A4, A5, A6, A7, A8.
  set (s2 := assign_contentElement _ _) in *. clearbody s2.
  set (s' := match fst gt, fst gc with
             | Some _, Some _ => _
             | _, _ => _
             end).
  assert (E : s' = emit (NError "Target or content element not found")
                     (effect ConsoleError s2)).
  { unfold s'. destruct (fst gt) as [t|]; [|reflexivity].
    destruct (fst gc) as [c|]; [|reflexivity].
    destruct H as [H | H]; discriminate H. }
  rewrite E. clear E s'.
  split; [exact A1|]. split; [exact A2|]. split; [exact A3|].
  split; [exact A4|]. split; [exact A5|]. split; [exact A6|].
  split; [exact A7|]. split.
  - cbn [log emit effect set_log]. rewrite A8, <- !app_assoc. reflexivity.
  - rewrite !in_app_iff. intros [F | [F | F]].
    + exact (Hnt F).
    + exact (Hnc F).
    + cbn in F. intuition discriminate.
Qed.

Lemma initializeTarget_failure_witness :
  let s := initial (default_props (SelString "#missing") (SelString "#content")) in
  fst (getElement demo_doc (targetSelector (props s))) = None /\
  isVisible (initializeTarget demo_doc s) = false /\
  log (initializeTarget demo_doc s)
  = [ConsoleWarn; Emit (NError "Element not found: #missing");
     ConsoleError; Emit (NError "Target or content element not found")].
Proof.
  cbv zeta. split; [reflexivity|].
  destruct (initializeTarget_failure demo_doc
              (initial (default_props (SelString "#missing")
                                      (SelString "#content")))
              (or_introl eq_refl))
    as (_ & _ & _ & _ & Hv & _ & _ & Hl & _).
  split; [exact Hv | exact Hl].
Defined.

Lemma getElement_some_silent
  (doc : Document) (selector : ElementSelector) (el : Element) :
  fst (getElement doc selector) = Some el ->
  getElement doc selector = (Some el, []).
Proof.
  unfold getElement. destruct selector as [sel | resolver |].
  - destruct (querySelector doc sel) as [[x|] | err]; cbn; intros H;
      try discriminate H. now injection H as ->.
  - destruct (resolver tt) as [[x|] | err]; cbn; intros H;
      try discriminate H. now injection H as ->.
  - cbn. discriminate.
Qed.

(** The notification of a recomputation carries the refs it wrote. *)
Lemma updateScrollInfo_log (s : Comp) (tg ct : Element) :
  targetElement s = Some tg -> contentElement s = Some ct ->
  log (updateScrollInfo s)
  = (log s ++ [Emit (NScroll
                       {| si_scrollLeft := scrollLeft (updateScrollInfo s);
                          si_maxScroll := maxScroll (updateScrollInfo s);
                          si_scrollPercent := scrollPercent (updateScrollInfo s)
                       |})])%list.
Proof.
  intros Ht Hc. unfold updateScrollInfo. rewrite Ht, Hc. cbv zeta.
  unfold revalidate.
  destruct (autoShow _), (scrollState_changed _ _ _); reflexivity.
Qed.

(** X12. When both elements resolve, [initializeTarget] stores them,
    puts the scroll listener on the target, has the resize observer watch
    both, publishes the Scroll State read from them (scrollLeft of the
    target, maxScroll = max(0, scrollWidth - clientWidth)), makes the
    component visible, leaves the document's listeners alone, and emits a
    scroll notification followed by ready, and nothing else. *)
Theorem initializeTarget_success
  (doc : Document) (s : Comp) (tg ct : Element) :
  fst (getElement doc (targetSelector (props s))) = Some tg ->
  fst (getElement doc (contentSelector (props s))) = Some ct ->
  let s' := initializeTarget doc s in
  targetElement s'
  = Some (set_el_listeners (addEventListener LScroll (el_listeners tg)) tg) /\
  contentElement s' = Some ct /\
  resizeObserver s' = Some [ObsTarget; ObsContent] /\
  isVisible s' = true /\
  documentListeners s' = documentListeners s /\
  scrollLeft s' = el_scrollLeft tg /\
  maxScroll s'
  = max (Fin 0) (sub (Fin (scrollWidth ct)) (Fin (clientWidth tg))) /\
  exists info,
    log s' = (log s ++ [Emit (NScroll info); Emit NReady])%list /\
    si_scrollLeft info = el_scrollLeft tg /\
    si_maxScroll info = maxScroll s'.
Proof.
  intros Ht Hc. cbv zeta. rewrite initializeTarget_unfold. cbv zeta.
  rewrite (getElement_some_silent doc _ tg Ht).
  rewrite (getElement_some_silent doc _ ct Hc).
  cbn [fst snd].
  destruct (assign_elements_frame (Some tg) (Some ct) [] [] s)
    as (A1 & A2 & A3 & A4 & A5 & A6 & A7 & A8).
  cbv zeta in A1, A2, A3, A4, A5, A6, A7, A8.
  set (s2 := assign_contentElement _ _) in *. clearbody s2.
  set (tg' := set_el_listeners (addEventListener LScroll (el_listeners tg)) tg).
  assert (E3 : setupResizeObserver (setupScrollListener s2)
               = set_resizeObserver
                   (set_targetElement s2 (Some tg'))
                   (Some [ObsTarget; ObsContent])).
  { unfold setupScrollListener. rewrite A1. unfold setupResizeObserver.
    cbn [targetElement contentElement set_targetElement]. now rewrite A2. }
  rewrite E3.
  set (u := set_resizeObserver _ _).
  assert (Htu : targetElement u = Some tg') by reflexivity.
  assert (Hcu : contentElement u = Some ct) by exact A2.
  assert (Hlu : log u = log s)
    by (change (log u) with (log s2); now rewrite A8, !app_nil_r).
  destruct (updateScrollInfo_frame u)
    as (_ & _ & _ & _ & _ & _ & Ft & Fc & Fl & Fr & _).
  cbv zeta in Ft, Fc, Fl, Fr.
  pose proof (updateScrollInfo_fresh u tg' ct Htu Hcu) as F.
  cbv zeta in F.
  assert (F1 : scrollLeft (updateScrollInfo u) = el_scrollLeft tg)
    by exact (f_equal (fun r => fst (fst r)) F).
  assert (F2 : maxScroll (updateScrollInfo u)
               = max (Fin 0) (sub (Fin (scrollWidth ct)) (Fin (clientWidth tg))))
    by exact (f_equal (fun r => snd (fst r)) F).
  clear F.
  assert (Hinfo : exists info,
            log (updateScrollInfo u) = (log u ++ [Emit (NScroll info)])%list /\
            si_scrollLeft info = el_scrollLeft tg /\
            si_maxScroll info = maxScroll (updateScrollInfo u)).
  { eexists. split; [apply (updateScrollInfo_log u tg' ct Htu Hcu)|].
    cbn [si_scrollLeft si_maxScroll]. split; [exact F1 | reflexivity]. }
  destruct Hinfo as (info & Hl & Hi1 & Hi2).
  repeat split.
  - cbn [targetElement emit effect set_log set_isVisible]. now rewrite Ft.
  - cbn [contentElement emit effect set_log set_isVisible]. now rewrite Fc.
  - cbn [resizeObserver emit effect set_log set_isVisible]. now rewrite Fr.
  - cbn [documentListeners emit effect set_log set_isVisible].
    rewrite Fl. exact A4.
  - cbn [scrollLeft emit effect set_log set_isVisible]. now rewrite F1.
  - cbn [maxScroll emit effect set_log set_isVisible]. now rewrite F2.
  - exists info. split; [|split].
    + cbn [log emit effect set_log set_isVisible].
      rewrite Hl, Hlu, <- app_assoc. reflexivity.
    + exact Hi1.
    + cbn [maxScroll emit effect set_log set_isVisible]. exact Hi2.
Qed.

Lemma initializeTarget_success_witness :
  fst (getElement demo_doc (targetSelector (props (initial demo_props))))
  = Some demo_target /\
  fst (getElement demo_doc (contentSelector (props (initial demo_props))))
  = Some demo_content /\
  isVisible (initializeTarget demo_doc (initial demo_props)) = true /\
  maxScroll (initializeTarget demo_doc (initial demo_props))
  = max (Fin 0) (sub (Fin 1500) (Fin 500)).
Proof.
  split; [reflexivity|]. split; [reflexivity|].
  destruct (initializeTarget_success demo_doc (initial demo_props)
              demo_target demo_content eq_refl eq_refl)
    as (_ & _ & _ & Hv & _ & _ & Hm & _).
  split; [exact Hv | exact Hm].
Defined.

(** ** What a recomputation publishes *)

Lemma updateScrollInfo_showScrollbar (s : Comp) (tg ct : Element) :
  targetElement s = Some tg -> contentElement s = Some ct ->
  showScrollbar (updateScrollInfo s)
  = if autoShow (props s)
    then gtb (maxScroll (updateScrollInfo s)) (minScrollDistance (props s))
    else true.
Proof.
  intros Ht Hc. unfold updateScrollInfo. rewrite Ht, Hc. cbv zeta.
  cbn [props set_scrollState]. unfold revalidate.
  destruct (autoShow (props s)), (scrollState_changed _ _ _); reflexivity.
Qed.

(** X13. With both elements resolved and a finite target offset [x],
    [updateScrollInfo] publishes scrollLeft = [x] and maxScroll =
    max(0, scrollWidth - clientWidth), so 0 when the content is no wider
    than the viewport; the percentage is 0 when maxScroll is 0, x /
    maxScroll * 100 otherwise, and lies in [[0, 100]] whenever [x] lies in
    [[0, maxScroll]]. Without autoShow the scrollbar is shown; with it,
    exactly when maxScroll is strictly greater than minScrollDistance. *)
Theorem updateScrollInfo_publishes (s : Comp) (tg ct : Element) (x : Q) :
  targetElement s = Some tg -> contentElement s = Some ct ->
  el_scrollLeft tg = Fin x ->
  let s' := updateScrollInfo s in
  exists m p,
    scrollLeft s' = Fin x /\ maxScroll s' = Fin m /\ scrollPercent s' = Fin p /\
    0 <= m /\
    (scrollWidth ct <= clientWidth tg -> m == 0) /\
    (clientWidth tg <= scrollWidth ct -> m == scrollWidth ct - clientWidth tg) /\
    (m == 0 -> p == 0) /\ (0 < m -> p == x / m * 100) /\
    (0 <= x <= m -> 0 <= p <= 100) /\
    (autoShow (props s) = false -> showScrollbar s' = true) /\
    (forall d, autoShow (props s) = true ->
               minScrollDistance (props s) = Fin d ->
               (showScrollbar s' = true <-> d < m)).
Proof.
  intros Ht Hc Hx. cbv zeta.
  pose proof (updateScrollInfo_fresh s tg ct Ht Hc) as F. cbv zeta in F.
  pose proof (updateScrollInfo_showScrollbar s tg ct Ht Hc) as Hshow.
  assert (F1 : scrollLeft (updateScrollInfo s) = el_scrollLeft tg)
    by exact (f_equal (fun r => fst (fst r)) F).
  assert (F2 : maxScroll (updateScrollInfo s)
               = max (Fin 0) (sub (Fin (scrollWidth ct)) (Fin (clientWidth tg))))
    by exact (f_equal (fun r => snd (fst r)) F).
  assert (F3 : scrollPercent (updateScrollInfo s)
               = percent_of (el_scrollLeft tg)
                   (max (Fin 0)
                      (sub (Fin (scrollWidth ct)) (Fin (clientWidth tg)))))
    by exact (f_equal snd F).
  clear F. cbn [sub opp add] in F2, F3.
  destruct (max_fin 0 (scrollWidth ct + - clientWidth tg))
    as (m & Em & Hm & Hm0 & Hmd).
  rewrite Em in F2, F3. rewrite Hx in F1, F3. rewrite F2 in Hshow.
  assert (Hmz : scrollWidth ct <= clientWidth tg -> m == 0)
    by (intros H; destruct Hm as [-> | ->]; lra).
  assert (Hmp : clientWidth tg <= scrollWidth ct ->
                m == scrollWidth ct - clientWidth tg)
    by (intros H; destruct Hm as [-> | ->]; lra).
  unfold percent_of in F3.
  destruct (gtb (Fin m) (Fin 0)) eqn:G.
  - apply gtb_fin in G. rewrite div_fin in F3 by lra. cbn [mul] in F3.
    exists m, (x / m * 100).
    split; [exact F1|]. split; [exact F2|]. split; [exact F3|].
    split; [exact Hm0|]. split; [exact Hmz|]. split; [exact Hmp|].
    split; [intros Z; lra|]. split; [reflexivity|]. split.
    + intros [Hx0 Hxm].
      assert (R0 : 0 <= x / m) by (apply Qle_shift_div_l; lra).
      assert (R1 : x / m <= 1) by (apply Qle_shift_div_r; lra).
      lra.
    + split.
      * intros Ha. now rewrite Hshow, Ha.
      * intros d Ha Hd. rewrite Hshow, Ha, Hd. apply gtb_fin.
  - apply gtb_fin_false in G.
    exists m, 0.
    split; [exact F1|]. split; [exact F2|]. split; [exact F3|].
    split; [exact Hm0|]. split; [exact Hmz|]. split; [exact Hmp|].
    split; [reflexivity|]. split; [intros Hp; lra|]. split; [lra|].
    split.
    + intros Ha. now rewrite Hshow, Ha.
    + intros d Ha Hd. rewrite Hshow, Ha, Hd. apply gtb_fin.
Qed.

Lemma updateScrollInfo_publishes_witness :
  targetElement demo_dragging
  = Some (set_el_scrollLeft (Fin 120) (set_el_listeners [LScroll] demo_target)) /\
  exists m p,
    maxScroll (updateScrollInfo demo_dragging) = Fin m /\ m == 1000 /\
    scrollPercent (updateScrollInfo demo_dragging) = Fin p /\ p == 12 /\
    showScrollbar (updateScrollInfo demo_dragging) = true.
Proof.
  split; [exact demo_dragging_target|].
  destruct (updateScrollInfo_publishes demo_dragging _ demo_content 120
              demo_dragging_target eq_refl eq_refl)
    as (m & p & _ & Hm & Hp & _ & _ & Hmd & _ & Hpp & _ & _ & Hshow).
  assert (Em : m == 1000).
  { rewrite Hmd; [vm_compute; reflexivity | vm_compute; discriminate]. }
  exists m, p. split; [exact Hm|]. split; [exact Em|].
  split; [exact Hp|]. split.
  - rewrite Hpp by (rewrite Em; reflexivity). rewrite Em. reflexivity.
  - apply (Hshow 50); [reflexivity | reflexivity |]. rewrite Em. reflexivity.
Defined.

(** X14. Recomputing twice in a row publishes the same Scroll State and
    visibility as recomputing once; there is no change detection, so with
    both elements resolved the second run emits the same scroll
    notification again. *)
Theorem updateScrollInfo_twice (s : Comp) :
  let s1 := updateScrollInfo s in
  scrollRefs (updateScrollInfo s1) = scrollRefs s1 /\
  showScrollbar (updateScrollInfo s1) = showScrollbar s1 /\
  targetElement (updateScrollInfo s1) = targetElement s /\
  (forall tg ct, targetElement s = Some tg -> contentElement s = Some ct ->
     exists info,
       log (updateScrollInfo s1)
       = (log s ++ [Emit (NScroll info); Emit (NScroll info)])%list).
Proof.
  cbv zeta.
  destruct (updateScrollInfo_frame s)
    as (Fp & _ & _ & _ & _ & _ & Ft & Fc & _).
  cbv zeta in Fp, Ft, Fc.
  destruct (targetElement s) as [tg|] eqn:Ht;
    [destruct (contentElement s) as [ct|] eqn:Hc|].
  - assert (R : scrollRefs (updateScrollInfo (updateScrollInfo s))
                = scrollRefs (updateScrollInfo s)).
    { rewrite (updateScrollInfo_fresh _ tg ct Ft Fc).
      now rewrite (updateScrollInfo_fresh s tg ct Ht Hc). }
    split; [exact R|]. split; [|split].
    + rewrite (updateScrollInfo_showScrollbar _ tg ct Ft Fc).
      rewrite (updateScrollInfo_showScrollbar s tg ct Ht Hc).
      rewrite Fp.
      now rewrite (f_equal (fun r => snd (fst r)) R : maxScroll _ = maxScroll _).
    + now rewrite !updateScrollInfo_targetElement.
    + intros tg0 ct0 _ _. eexists.
      rewrite (updateScrollInfo_log _ tg ct Ft Fc).
      rewrite (updateScrollInfo_log s tg ct Ht Hc).
      rewrite <- app_assoc. cbn [app].
      rewrite (f_equal (fun r => fst (fst r)) R : scrollLeft _ = scrollLeft _).
      rewrite (f_equal (fun r => snd (fst r)) R : maxScroll _ = maxScroll _).
      rewrite (f_equal snd R : scrollPercent _ = scrollPercent _).
      reflexivity.
  - rewrite !(updateScrollInfo_unresolved s) by (right; exact Hc).
    rewrite Ht. repeat split. intros tg0 ct0 _ H. discriminate H.
  - rewrite !(updateScrollInfo_unresolved s) by (left; exact Ht).
    repeat split; [exact Ht|]. intros tg0 ct0 H. discriminate H.
Qed.

(** ** The log and the published Scroll State *)

Lemma extends_refl (s : Comp) : extends s s.
Proof.
  exists []. split; [now rewrite app_nil_r|]. split; [reflexivity|].
  intros info [].
Qed.

Lemma last_scroll_app (l1 l2 : list Effect) (start : ScrollInfo) :
  last_scroll (l1 ++ l2) start = last_scroll l2 (last_scroll l1 start).
Proof. unfold last_scroll. apply fold_left_app. Qed.

Lemma extends_trans (s1 s2 s3 : Comp) :
  extends s1 s2 -> extends s2 s3 -> extends s1 s3.
Proof.
  intros (e1 & L1 & P1 & O1) (e2 & L2 & P2 & O2).
  exists (e1 ++ e2)%list. split; [|split].
  - now rewrite L2, L1, app_assoc.
  - now rewrite last_scroll_app, P1.
  - intros info H. apply in_app_iff in H. destruct H; auto.
Qed.

(** Steps that log nothing and leave the Scroll State refs alone. *)
Lemma extends_quiet (s s' : Comp) :
  log s' = log s -> scrollRefs s' = scrollRefs s -> extends s s'.
Proof.
  intros Hl Hr. exists []. split; [now rewrite app_nil_r|]. split.
  - unfold scrollRefs in Hr. injection Hr as H1 H2 H3.
    unfold published. cbn. now rewrite H1, H2, H3.
  - intros info [].
Qed.

Lemma last_scroll_none (es : list Effect) (start : ScrollInfo) :
  (forall info, ~ In (Emit (NScroll info)) es) ->
  last_scroll es start = start.
Proof.
  unfold last_scroll. revert start.
  induction es as [|e es IH]; intros start H; [reflexivity|].
  cbn [fold_left]. rewrite IH.
  - destruct e as [[| | info | | | |] | | |]; try reflexivity.
    exfalso. apply (H info). now left.
  - intros info Hin. apply (H info). now right.
Qed.

(** Logging effects other than scroll notifications. *)
Lemma extends_effects (es : list Effect) (s : Comp) :
  (forall info, ~ In (Emit (NScroll info)) es) -> extends s (effects es s).
Proof.
  intros H. exists es. split; [reflexivity|]. split.
  - now rewrite last_scroll_none.
  - intros info Hin. destruct (H info Hin).
Qed.

Lemma extends_effect (e : Effect) (s : Comp) :
  (forall info, e <> Emit (NScroll info)) -> extends s (effect e s).
Proof.
  intros H. apply (extends_effects [e]).
  intros info [Hin | []]. now apply (H info).
Qed.

Lemma extends_updateScrollInfo (s : Comp) : extends s (updateScrollInfo s).
Proof.
  destruct (targetElement s) as [tg|] eqn:Ht;
    [destruct (contentElement s) as [ct|] eqn:Hc|].
  - exists [Emit (NScroll (published (updateScrollInfo s)))].
    split; [exact (updateScrollInfo_log s tg ct Ht Hc)|].
    split; [reflexivity|].
    intros info [E | []]. injection E as <-.
    pose proof (updateScrollInfo_fresh s tg ct Ht Hc) as F. cbv zeta in F.
    unfold scrollInfo_ok, published. cbn [si_scrollLeft si_maxScroll si_scrollPercent].
    rewrite (f_equal (fun r => fst (fst r)) F : scrollLeft _ = _).
    rewrite (f_equal (fun r => snd (fst r)) F : maxScroll _ = _).
    rewrite (f_equal snd F : scrollPercent _ = _).
    split; [apply max_zero_sub_fin | reflexivity].
  - rewrite updateScrollInfo_unresolved by (right; exact Hc). apply extends_refl.
  - rewrite updateScrollInfo_unresolved by (left; exact Ht). apply extends_refl.
Qed.

Lemma scrollToPosition_log (p : num) (s : Comp) :
  log (scrollToPosition p s) = log s.
Proof. unfold scrollToPosition. destruct (targetElement s); reflexivity. Qed.

Lemma extends_scrollToPosition (p : num) (s : Comp) :
  extends s (scrollToPosition p s).
Proof.
  apply extends_quiet; [apply scrollToPosition_log | apply scrollToPosition_refs].
Qed.

Lemma getElement_no_scroll (doc : Document) (sel : ElementSelector) :
  forall info, ~ In (Emit (NScroll info)) (snd (getElement doc sel)).
Proof.
  intros info. unfold getElement. destruct sel as [q | r |]; cbn.
  - destruct (querySelector doc q) as [[x|] | err]; cbn; intuition discriminate.
  - destruct (r tt) as [[x|] | err]; cbn; intuition discriminate.
  - tauto.
Qed.

Lemma setupScrollListener_log (s : Comp) :
  log (setupScrollListener s) = log s.
Proof. unfold setupScrollListener. destruct (targetElement s); reflexivity. Qed.

Lemma setupResizeObserver_log (s : Comp) :
  log (setupResizeObserver s) = log s.
Proof.
  unfold setupResizeObserver.
  destruct (targetElement s); [destruct (contentElement s)|]; reflexivity.
Qed.

Lemma extends_initializeTarget (doc : Document) (s : Comp) :
  extends s (initializeTarget doc s).
Proof.
  rewrite initializeTarget_unfold. cbv zeta.
  set (gt := getElement doc (targetSelector (props s))).
  set (gc := getElement doc (contentSelector (props s))).
  destruct (assign_elements_frame (fst gt) (fst gc) (snd gt) (snd gc) s)
    as (_ & _ & _ & _ & _ & _ & A7 & A8).
  cbv zeta in A7, A8.
  set (s2 := assign_contentElement _ _) in *.
  assert (H2 : extends s s2).
  { apply (extends_trans s (effects (snd gt ++ snd gc) s)).
    - apply extends_effects. intros info Hin. apply in_app_iff in Hin.
      destruct Hin as [Hin | Hin];
        exact (getElement_no_scroll doc _ info Hin).
    - apply extends_quiet; [exact A8 | exact A7]. }
  clearbody s2.
  destruct (fst gt); [destruct (fst gc)|].
  - apply (extends_trans s s2); [exact H2|].
    set (u := setupResizeObserver (setupScrollListener s2)).
    assert (Hu : extends s2 u).
    { apply extends_quiet.
      - unfold u. now rewrite setupResizeObserver_log, setupScrollListener_log.
      - unfold u. now rewrite setupResizeObserver_refs, setupScrollListener_refs. }
    apply (extends_trans _ u); [exact Hu|].
    apply (extends_trans _ (updateScrollInfo u));
      [apply extends_updateScrollInfo|].
    apply (extends_trans _ (set_isVisible (updateScrollInfo u) true));
      [now apply extends_quiet|].
    apply extends_effect. discriminate.
  - apply (extends_trans s s2); [exact H2|].
    apply (extends_trans _ (effect ConsoleError s2));
      apply extends_effect; discriminate.
  - apply (extends_trans s s2); [exact H2|].
    apply (extends_trans _ (effect ConsoleError s2));
      apply extends_effect; discriminate.
Qed.

Lemma cleanup_log (s : Comp) : log (cleanup s) = log s.
Proof. now rewrite cleanup_unfold. Qed.

Lemma extends_updateDragPosition (x : num) (s : Comp) :
  extends s (updateDragPosition x s).
Proof.
  unfold updateDragPosition.
  destruct (customScrollbarRef s); [|apply extends_refl].
  eapply extends_trans; [apply extends_scrollToPosition|].
  apply extends_updateScrollInfo.
Qed.

Lemma extends_handleKeyDown (e : KeyboardEvent) (s : Comp) :
  extends s (handleKeyDown e s).
Proof.
  destruct (handleKeyDown_shape e s) as [E | (p & tg & _ & E & _)];
    rewrite E; [apply extends_refl|].
  eapply extends_trans; [apply extends_scrollToPosition|].
  eapply extends_trans; apply extends_effect; discriminate.
Qed.

Lemma step_extends (a : Action) (s : Comp) : extends s (step a s).
Proof.
  destruct a; cbn [step].
  - unfold onMounted. destruct (enableKeyboard _);
      [now apply extends_quiet | apply extends_refl].
  - apply extends_initializeTarget.
  - unfold throttledHandleScroll. destruct (negb _);
      [apply extends_updateScrollInfo | apply extends_refl].
  - apply extends_updateScrollInfo.
  - unfold handleScrollbarClick.
    destruct (customScrollbarRef s); [|apply extends_refl].
    destruct (customScrollbarThumbRef s); [|apply extends_refl].
    destruct (disabled _); [apply extends_refl|].
    destruct (Nat.eqb _ _); [apply extends_refl|].
    eapply extends_trans; [apply extends_scrollToPosition|].
    apply extends_effect. discriminate.
  - unfold handleThumbMouseDown. destruct (disabled _); [apply extends_refl|].
    eapply extends_trans; [|apply extends_effect; discriminate].
    eapply extends_trans; [|apply extends_effect; discriminate].
    now apply extends_quiet.
  - unfold handleThumbTouchStart. destruct (disabled _); [apply extends_refl|].
    eapply extends_trans; [|apply extends_effect; discriminate].
    eapply extends_trans; [|apply extends_effect; discriminate].
    now apply extends_quiet.
  - unfold handleMouseMove. destruct (negb _); [apply extends_refl|].
    apply extends_updateDragPosition.
  - unfold handleTouchMove. destruct (negb _); [apply extends_refl|].
    eapply extends_trans; [apply extends_updateDragPosition|].
    apply extends_effect. discriminate.
  - unfold handleMouseUp.
    eapply extends_trans; [|apply extends_effect; discriminate].
    now apply extends_quiet.
  - unfold handleTouchEnd.
    eapply extends_trans; [|apply extends_effect; discriminate].
    now apply extends_quiet.
  - apply extends_handleKeyDown.
  - apply extends_scrollToPosition.
  - apply extends_scrollToPosition.
  - apply extends_updateScrollInfo.
  - apply extends_quiet; [apply cleanup_log | apply cleanup_refs].
  - unfold env_scroll. destruct (targetElement s);
      [now apply extends_quiet | apply extends_refl].
  - now apply extends_quiet.
  - unfold env_render.
    apply extends_quiet; [now rewrite revalidate_log|].
    now rewrite revalidate_refs.
  - now apply extends_quiet.
  - unfold env_props.
    apply extends_quiet; [now rewrite revalidate_log|].
    now rewrite revalidate_refs.
Qed.

(** X15. In every reachable state the published Scroll State is exactly
    what the most recent scroll notification carried (the initial zeros if
    none was emitted yet): no handler changes the published refs without
    notifying. Every scroll notification ever emitted has a finite
    non-negative maxScroll and the percentage
    [maxScroll > 0 ? scrollLeft / maxScroll * 100 : 0]. *)
Theorem published_state_is_last_notification (s : Comp) :
  reachable s ->
  last_scroll (log s)
    {| si_scrollLeft := Fin 0; si_maxScroll := Fin 0;
       si_scrollPercent := Fin 0 |}
  = published s /\
  (forall info, In (Emit (NScroll info)) (log s) -> scrollInfo_ok info).
Proof.
  induction 1 as [p | a s _ [IH1 IH2]].
  - split; [reflexivity | intros info []].
  - destruct (step_extends a s) as (es & L & P & O).
    rewrite L. split.
    + now rewrite last_scroll_app, IH1.
    + intros info H. apply in_app_iff in H. destruct H; auto.
Qed.

Lemma published_state_is_last_notification_witness :
  reachable demo_at250 /\
  last_scroll (log demo_at250)
    {| si_scrollLeft := Fin 0; si_maxScroll := Fin 0;
       si_scrollPercent := Fin 0 |}
  = published demo_at250 /\
  scrollLeft demo_at250 = Fin 250.
Proof.
  split; [exact demo_at250_reachable|].
  split; [|reflexivity].
  exact (proj1 (published_state_is_last_notification demo_at250
                  demo_at250_reachable)).
Defined.

(** ** Edges of programmatic scrolling *)

(** X16. Whatever number [scrollToPosition] is given, what it writes to a
    resolved target in a reachable state is never infinite and never
    outside [[0, maxScroll]]: it is a finite offset of that range, unless
    the argument is [NaN], which the clamp lets through and which is
    written as it is. *)
Theorem scrollToPosition_range_or_NaN (s : Comp) (tg : Element) (p : num) :
  reachable s -> targetElement s = Some tg ->
  exists m v,
    maxScroll s = Fin m /\
    scrollToPosition p s = set_targetElement s (Some (set_el_scrollLeft v tg)) /\
    ((p = NaN /\ v = NaN) \/
     (p <> NaN /\ exists c, v = Fin c /\ 0 <= c <= m)).
Proof.
  intros Hr Ht. destruct (reachable_ok s Hr) as [(m & Hm & H0) _].
  exists m. unfold scrollToPosition. rewrite Ht, Hm.
  eexists. split; [reflexivity|]. split; [reflexivity|].
  destruct p as [q | | |].
  - right. split; [discriminate|].
    destruct (clamp_fin m q H0) as (c & -> & Hc & _). now exists c.
  - right. split; [discriminate|]. cbn [min gtb].
    destruct (max_fin 0 m) as (z & -> & Hz & Hz0 & Hzm).
    exists z. split; [reflexivity|]. destruct Hz as [-> | ->]; lra.
  - right. split; [discriminate|]. cbn [min max gtb].
    exists 0. split; [reflexivity | lra].
  - left. split; reflexivity.
Qed.

Lemma scrollToPosition_range_or_NaN_witness :
  reachable demo_ready /\
  written_offset (scrollToPosition NaN demo_ready) = Some NaN /\
  written_offset (scrollToPosition PInf demo_ready) = Some (Fin 1000).
Proof.
  split; [exact demo_ready_reachable|].
  destruct (scrollToPosition_range_or_NaN demo_ready _ NaN
              demo_ready_reachable demo_ready_target)
    as (m & v & _ & E & [[_ ->] | [N _]]); [|now destruct N].
  split; [now rewrite E | reflexivity].
Defined.

(** X17. While the target element is unresolved the component cannot
    scroll anything: [scrollToPosition], [scrollToEnd], [updateScrollInfo],
    the scroll handler, the keyboard handler and drag moves all return the
    state unchanged. A click on the track is the exception in what it
    reports: it writes nothing but still emits its click notification. *)
Theorem unresolved_target_is_inert (s : Comp) :
  targetElement s = None ->
  (forall p, scrollToPosition p s = s) /\
  scrollToEnd s = s /\ updateScrollInfo s = s /\
  throttledHandleScroll s = s /\
  (forall e, handleKeyDown e s = s) /\
  (forall e, handleMouseMove e s = s) /\
  (forall e sb th,
     customScrollbarRef s = Some sb -> customScrollbarThumbRef s = Some th ->
     disabled (props s) = false -> target e <> th ->
     handleScrollbarClick e s = emit (NClick e) s).
Proof.
  intros Ht.
  assert (Hs : forall p, scrollToPosition p s = s)
    by (intros p; unfold scrollToPosition; now rewrite Ht).
  assert (Hu : updateScrollInfo s = s)
    by (apply updateScrollInfo_unresolved; now left).
  split; [exact Hs|]. split; [apply Hs|]. split; [exact Hu|].
  split; [|split; [|split]].
  - unfold throttledHandleScroll. destruct (negb _); [exact Hu | reflexivity].
  - intros e. unfold handleKeyDown. rewrite Ht. now destruct (negb _).
  - intros e. unfold handleMouseMove, updateDragPosition.
    destruct (negb _); [reflexivity|].
    destruct (customScrollbarRef s); [|reflexivity].
    now rewrite Hs.
  - intros e sb th Hsb Hth Hd He. unfold handleScrollbarClick.
    rewrite Hsb, Hth, Hd. apply Nat.eqb_neq in He. rewrite He.
    now rewrite Hs.
Qed.

Lemma unresolved_target_is_inert_witness :
  let s := env_render (Some demo_track) (Some 7%nat) (initial demo_props) in
  targetElement s = None /\
  handleKeyDown {| key := "End" |} s = s /\
  log (handleScrollbarClick {| clientX := 100; target := 3%nat |} s)
  = [Emit (NClick {| clientX := 100; target := 3%nat |})].
Proof.
  cbv zeta. split; [reflexivity|].
  destruct (unresolved_target_is_inert
              (env_render (Some demo_track) (Some 7%nat) (initial demo_props))
              eq_refl) as (_ & _ & _ & _ & Hk & _ & Hc).
  split; [apply Hk|].
  rewrite (Hc {| clientX := 100; target := 3%nat |} demo_track 7%nat
              eq_refl eq_refl eq_refl);
    [reflexivity | discriminate].
Defined.

(** ** More thumb geometry *)

(** X18. With a positive maxScroll and a thumb of finite width [w], the
    thumb sits at the track's start for scrollLeft 0 and ends flush with
    the track's end for scrollLeft = maxScroll (left + width = track
    width), whatever the widths are. *)
Theorem thumb_endpoints (s : Comp) (m w : Q) :
  maxScroll s = Fin m -> 0 < m -> width (thumbStyle s) = Px (Fin w) ->
  exists l0 l1,
    left (thumbStyle (with_scrollLeft (Fin 0) s)) = Px (Fin l0) /\
    left (thumbStyle (with_scrollLeft (Fin m) s)) = Px (Fin l1) /\
    l0 == 0 /\ l1 + w == trackWidth s.
Proof.
  intros Hm Hpos Hw.
  destruct (thumbStyle_left (with_scrollLeft (Fin 0) s) m 0 w Hm eq_refl Hw)
    as (l0 & E0 & P0 & _).
  destruct (thumbStyle_left (with_scrollLeft (Fin m) s) m m w Hm eq_refl Hw)
    as (l1 & E1 & P1 & _).
  change (trackWidth (with_scrollLeft (Fin 0) s)) with (trackWidth s) in P0.
  change (trackWidth (with_scrollLeft (Fin m) s)) with (trackWidth s) in P1.
  exists l0, l1. split; [exact E0|]. split; [exact E1|]. split.
  - rewrite (P0 Hpos). field. lra.
  - rewrite (P1 Hpos). field. lra.
Qed.

Lemma thumb_endpoints_witness :
  maxScroll demo_ready = Fin 1000 /\
  exists l0 l1,
    left (thumbStyle (with_scrollLeft (Fin 0) demo_ready)) = Px (Fin l0) /\
    left (thumbStyle (with_scrollLeft (Fin 1000) demo_ready)) = Px (Fin l1) /\
    l0 == 0 /\ l1 + 500 / 1500 * 300 == trackWidth demo_ready.
Proof.
  split; [reflexivity|].
  apply (thumb_endpoints demo_ready 1000 (500 / 1500 * 300));
    reflexivity.
Defined.

(** X19. In a reachable state with a positive maxScroll, a finite
    published scrollLeft and a thumb of finite width [w], the thumb's left
    position is the published percentage of the free track:
    left = scrollPercent / 100 * (trackWidth - w). *)
Theorem thumb_follows_percent (s : Comp) (m sl w : Q) :
  reachable s ->
  maxScroll s = Fin m -> 0 < m -> scrollLeft s = Fin sl ->
  width (thumbStyle s) = Px (Fin w) ->
  exists p l,
    scrollPercent s = Fin p /\ left (thumbStyle s) = Px (Fin l) /\
    l == p / 100 * (trackWidth s - w).
Proof.
  intros Hr Hm Hpos Hsl Hw.
  destruct (reachable_ok s Hr) as [_ Hp].
  destruct (thumbStyle_left s m sl w Hm Hsl Hw) as (l & El & Pl & _).
  rewrite Hm, Hsl in Hp. unfold percent_of in Hp.
  assert (G : gtb (Fin m) (Fin 0) = true) by (apply gtb_fin; exact Hpos).
  rewrite G, div_fin in Hp by lra. cbn [mul] in Hp.
  exists (sl / m * 100), l. split; [exact Hp|]. split; [exact El|].
  rewrite (Pl Hpos). field. lra.
Qed.

Lemma thumb_follows_percent_witness :
  reachable demo_at250 /\
  exists p l,
    scrollPercent demo_at250 = Fin p /\
    left (thumbStyle demo_at250) = Px (Fin l) /\
    l == p / 100 * (trackWidth demo_at250 - 500 / 1500 * 300).
Proof.
  split; [exact demo_at250_reachable|].
  apply (thumb_follows_percent demo_at250 1000 250 (500 / 1500 * 300)
           demo_at250_reachable); reflexivity.
Defined.

Lemma thumbWidth_fits_witness :
  minThumbWidth (props demo_ready) = Fin 30 /\
  exists w, width (thumbStyle demo_ready) = Px (Fin w) /\
            30 <= w <= trackWidth demo_ready.
Proof.
  split; [reflexivity|].
  apply (thumbWidth_fits demo_ready _ demo_content 30
           demo_ready_target eq_refl eq_refl).
  - vm_compute. discriminate.
  - vm_compute. discriminate.
  - split; vm_compute; discriminate.
Defined.

Lemma updateScrollInfo_twice_witness :
  scrollRefs (updateScrollInfo (updateScrollInfo demo_dragging))
  = scrollRefs (updateScrollInfo demo_dragging) /\
  exists info,
    log (updateScrollInfo (updateScrollInfo demo_dragging))
    = (log demo_dragging ++ [Emit (NScroll info); Emit (NScroll info)])%list.
Proof.
  destruct (updateScrollInfo_twice demo_dragging) as (Hr & _ & _ & Hl).
  split; [exact Hr|].
  exact (Hl _ demo_content demo_dragging_target eq_refl).
Defined.
